(** * starlink-coverage: the footprint-to-grid-cell coverage engine of main.py

    The development embeds the four parts of [main.py] that the specification
    talks about:

    - the geometry kernel [calcCapAngle] (lines 83-92);
    - the antimeridian split [split_antimeridian_polygon] (lines 140-174);
    - the rasterizer [get_cell_ids_h3] (lines 177-211);
    - the accumulation loop at the end of the script (lines 273-291).

    Number model.  Python floats are IEEE-754 binary64.  The rasterizer and
    the split only add, subtract, multiply, divide and compare, so they are
    embedded over Rocq's primitive binary64 floats and compute.  The geometry
    kernel calls [math.sin] and [math.asin].  It is embedded twice: in
    [Geometry] over the real numbers, which is the formula without rounding,
    and in [Geometry64] over binary64, the C library's [sin] and [asin]
    being fields of the class [Libm].  Statements about [Geometry] are
    statements about the formula; where rounding changes the outcome the
    evaluation in [Geometry64] says what the program returns.

    Third-party libraries (numpy, geog, shapely, h3, skyfield) are not part of
    the repository.  [np.linspace] is written out after numpy's algorithm;
    the others are fields of the classes [Libs] and [World], so every
    statement holds for whatever they compute.  [np_interp2] writes out what
    numpy's [np.interp] does on two-point arrays. *)

From Stdlib Require Import Reals Lra ZArith List.
From Stdlib Require Import PrimFloat Uint63.
From stdpp Require Import gmap strings list fin_maps.
From stdpp Require Import pretty.
From Stdlib Require Import Ascii.

Set Warnings "-inexact-float,-clear-no-such-hyp".

(* ===================================================================== *)
(** * Python outcomes: a value or a raised exception                      *)
(* ===================================================================== *)

Inductive exn : Type :=
  | ValueError
  | ZeroDivisionError
  | IndexError
  | UnboundLocalError
  | Exception (msg : string)
  | OtherError (kind : string).

Inductive res (A : Type) : Type :=
  | Ok (a : A)
  | Raise (e : exn).
Arguments Ok {A} a.
Arguments Raise {A} e.

Definition res_bind {A B} (m : res A) (k : A → res B) : res B :=
  match m with
  | Ok a => k a
  | Raise e => Raise e
  end.

#[global] Instance res_mbind : MBind res := λ A B k m, res_bind m k.
#[global] Instance res_mret : MRet res := λ A a, Ok a.

(* ===================================================================== *)
(** * Geometry kernel (lines 26-40 and 83-92), over the reals             *)
(* ===================================================================== *)

Module Geometry.
Local Open Scope R_scope.

(** [R_MEAN = 6378.1  # km] *)
Definition R_MEAN : R := 63781 / 10.

Definition to_deg (radians : R) : R := radians * (180 / PI).

Definition to_rads (degrees : R) : R := degrees * (PI / 180).

Definition RIGHT_ANGLE : R := to_rads 90.

(** Python's [/] on floats raises [ZeroDivisionError] on a zero divisor. *)
Definition float_div (x y : R) : res R :=
  if Req_dec_T y 0 then Raise ZeroDivisionError else Ok (x / y).

(** [math.asin] raises [ValueError] ("math domain error") outside [-1, 1]. *)
Definition math_asin (x : R) : res R :=
  if Rle_dec (-1) x then
    if Rle_dec x 1 then Ok (asin x) else Raise ValueError
  else Raise ValueError.

Definition calcCapAngle (altitude term_angle : R) : res R :=
  let epsilon := to_rads term_angle in
  q ← float_div (sin (epsilon + RIGHT_ANGLE) * R_MEAN) (R_MEAN + altitude);
  eta_FOV ← math_asin q;
  let lambda_FOV := 2 * (PI - (epsilon + RIGHT_ANGLE + eta_FOV)) in
  Ok (lambda_FOV / 2).

(** The half-angle as section 4.1 of the specification derives it, with the
    elevation [eps_deg] given in degrees and 90 degrees being [PI / 2]. *)
Definition spec_eta (h eps_deg : R) : R :=
  asin (sin (eps_deg * PI / 180 + PI / 2) * R_MEAN / (R_MEAN + h)).

Definition spec_lambda (h eps_deg : R) : R :=
  2 * (PI - (eps_deg * PI / 180 + PI / 2 + spec_eta h eps_deg)).

Definition spec_capHalfAngle (h eps_deg : R) : R := spec_lambda h eps_deg / 2.

(** Lines 66-80: the area of the cap, from the same angles. *)
Definition calcAreaSpherical (altitude term_angle : R) : res R :=
  let epsilon := to_rads term_angle in
  q ← float_div (sin (epsilon + RIGHT_ANGLE) * R_MEAN) (R_MEAN + altitude);
  eta_FOV ← math_asin q;
  let lambda_FOV := 2 * (PI - (epsilon + RIGHT_ANGLE + eta_FOV)) in
  let area := 2 * PI * (R_MEAN ^ 2) * (1 - cos (lambda_FOV / 2)) in
  Ok area.

(** The two fields of [sat.model] that [filter_sats] reads: the mean motion
    in radians per minute and the eccentricity. *)
Record Satrec : Type := {
  no_kozai : R;
  ecco : R
}.

(** Lines 54-60: the perigee altitude of one satellite.  [x ** (1./3.)] is
    the real power; its base is a quotient of [mu] by a square and is
    positive whenever the line is reached. *)
Definition perigee_of (model : Satrec) : res R :=
  let n := (no_kozai model / (2 * PI)) * 1440 in
  let e := ecco model in
  period ← float_div 1440 n;
  let mu := 3986004418 / 10000 in
  q ← float_div mu ((n * 2 * PI / (24 * 3600)) ^ 2);
  let a := Rpower q (1 / 3) in
  let perigee := (a * (1 - e)) - 6378135 / 1000 in
  Ok perigee.

(** Lines 53-62: the loop over [sats], [op_sats] being the list built so
    far. *)
Fixpoint filter_sats_loop {A} (model : A → Satrec) (sats op_sats : list A)
  : res (list A) :=
  match sats with
  | [] => Ok op_sats
  | sat :: rest =>
      perigee ← perigee_of (model sat);
      if Rlt_dec 540 perigee
      then filter_sats_loop model rest (op_sats ++ [sat])
      else filter_sats_loop model rest op_sats
  end.

(** Lines 49-63. *)
Definition filter_sats {A} (model : A → Satrec) (sats : list A) : res (list A) :=
  let op_sats : list A := [] in
  filter_sats_loop model sats op_sats.

(** Whether lines 54-61 let a satellite through: its perigee is computed
    and exceeds 540. *)
Definition passes_perigee_test (model : Satrec) : bool :=
  match perigee_of model with
  | Ok perigee => if Rlt_dec 540 perigee then true else false
  | Raise _ => false
  end.

(** Kepler's third law for a mean motion of [no_kozai / 60] radians per
    second: the semi-major axis in kilometres. *)
Definition semi_major_axis (model : Satrec) : R :=
  Rpower (3986004418 / 10000 * 3600 / (no_kozai model) ^ 2) (1 / 3).

(** Whether a satellite passes the test of line 61, by the closed form. *)
Definition operational (model : Satrec) : bool :=
  if Rlt_dec 540 (semi_major_axis model * (1 - ecco model) - 6378135 / 1000)
  then true else false.

(** Two quantities the proofs below are organised around: the ratio
    [R_MEAN / (R_MEAN + h)] of the law of sines, and the half-angle as a
    function of that ratio and of the co-elevation [theta = PI/2 - epsilon]. *)
Definition ratio (h : R) : R := R_MEAN / (R_MEAN + h).

Definition cap (k theta : R) : R := theta - asin (k * sin theta).

End Geometry.

(* ===================================================================== *)
(** * Geometry kernel (lines 26-40 and 83-92), in binary64                *)
(* ===================================================================== *)

Module Geometry64.
Local Open Scope float_scope.

(** The C library's [sin] and [asin] on doubles, which [math.sin] and
    [math.asin] call. *)
Class Libm : Type := {
  libm_sin : float → float;
  libm_asin : float → float
}.

(** [math.pi] is the double next to pi. *)
Definition math_pi : float := 3.141592653589793.

(** [R_MEAN = 6378.1  # km] *)
Definition R_MEAN : float := 6378.1.

Definition to_deg (radians : float) : float := radians * (180 / math_pi).

Definition to_rads (degrees : float) : float := degrees * (math_pi / 180).

Definition RIGHT_ANGLE : float := to_rads 90.

(** Python's [/] on floats raises [ZeroDivisionError] on a divisor equal to
    zero, of either sign. *)
Definition float_div (x y : float) : res float :=
  if y =? 0 then Raise ZeroDivisionError else Ok (x / y).

Section WithLibm.
Context `{Libm}.

(** [math.sin] raises [ValueError] on an infinite argument and hands a NaN
    through. *)
Definition math_sin (x : float) : res float :=
  if is_infinity x then Raise ValueError else Ok (libm_sin x).

(** [math.asin] raises [ValueError] outside [-1, 1] and hands a NaN
    through. *)
Definition math_asin (x : float) : res float :=
  if (x <? -1) || (1 <? x) then Raise ValueError else Ok (libm_asin x).

Definition calcCapAngle (altitude term_angle : float) : res float :=
  let epsilon := to_rads term_angle in
  s ← math_sin (epsilon + RIGHT_ANGLE);
  q ← float_div (s * R_MEAN) (R_MEAN + altitude);
  eta_FOV ← math_asin q;
  let lambda_FOV := 2 * (math_pi - (epsilon + RIGHT_ANGLE + eta_FOV)) in
  Ok (lambda_FOV / 2).

End WithLibm.
End Geometry64.

(* ===================================================================== *)
(** * Rasterizer (lines 140-211), over binary64                           *)
(* ===================================================================== *)

Module Raster.
Local Open Scope float_scope.

(** A GeoJSON vertex [[lon, lat]] and a ring of them. *)
Definition point : Type := float * float.
Definition ring : Type := list point.

(** What the script writes to standard output. *)
Inductive event : Type :=
  | PrintLatLng (lat lng : float)
  | PrintPolygon (polygon : ring)
  | PrintTime (minute : Z).

(** Computations that print and may raise: the output so far and the outcome. *)
Definition M (A : Type) : Type := (list event * res A)%type.

Definition M_bind {A B} (m : M A) (k : A → M B) : M B :=
  match m with
  | (out, Ok a) => let '(out', r) := k a in (out ++ out', r)
  | (out, Raise e) => (out, Raise e)
  end.

#[global] Instance M_mbind : MBind M := λ A B k m, M_bind m k.
#[global] Instance M_mret : MRet M := λ A a, ([], Ok a).

Definition raise {A} (e : exn) : M A := ([], Raise e).
Definition print (ev : event) : M unit := ([ev], Ok tt).
Definition lift {A} (r : res A) : M A := ([], r).

(** The progress lines of line 279 among the output. *)
Definition is_time_print (ev : event) : bool :=
  match ev with
  | PrintTime _ => true
  | _ => false
  end.

(** An expression statement: the value is built and dropped. *)
Definition expr_stmt {A} (v : A) : M unit := mret tt.

Definition R_MEAN : float := 6378.1.
Definition H3_RESOLUTION_LEVEL : Z := 4.

Definition float_of_nat (n : nat) : float :=
  of_uint63 (Uint63.of_Z (Z.of_nat n)).

(** [np.linspace(start, stop, num)], endpoint included, for [num > 1] and a
    nonzero step: the samples [i * step + start] with
    [step = (stop - start) / (num - 1)], the last one overwritten by [stop]. *)
Definition np_linspace (start stop : float) (num : nat) : list float :=
  let div := (num - 1)%nat in
  let step := (stop - start) / float_of_nat div in
  map (λ i, float_of_nat i * step + start) (seq 0 (num - 1)) ++ [stop].

(** [np.interp([x], xp, fp)[0]] for two-point [xp], [fp], after numpy's
    [arr_interp]: [x] beyond the last abscissa gives the last ordinate, [x]
    before the first gives the first ordinate, and in between the segment
    through the two points is evaluated.  numpy does not check that [xp]
    increases. *)
Definition np_interp2 (x : float) (xp fp : float * float) : float :=
  if xp.2 <? x then fp.2
  else if x <? xp.1 then fp.1
  else if xp.2 <=? x then fp.2
  else if xp.1 =? x then fp.1
  else (fp.2 - fp.1) / (xp.2 - xp.1) * (x - xp.1) + fp.1.

(** The libraries the rasterizer calls.
    - [geog_propagate1 p angle d]: [geog.propagate] for one angle;
    - [shapely_Polygon r]: [shapely.geometry.mapping(shapely.geometry.Polygon(r))],
      which may raise;
    - [shapely_orient r]: [shapely.geometry.polygon.orient(_, 1.0)];
    - [h3_polyfill r]: [h3.polyfill(r, H3_RESOLUTION_LEVEL, True)], which may
      raise;
    - [np_interp]: [np.interp] on two-point arrays. *)
Class Libs : Type := {
  geog_propagate1 : point → float → float → point;
  shapely_Polygon : ring → res ring;
  shapely_orient : ring → ring;
  h3_polyfill : ring → res (gset string);
  np_interp : float → float * float → float * float → float
}.

Section WithLibs.
Context `{Libs}.

(** [geog.propagate(p, angles, d)] broadcasts over the array of angles. *)
Definition geog_propagate (p : point) (angles : list float) (d : float) : ring :=
  map (λ angle, geog_propagate1 p angle d) angles.

(** Line 152. *)
Definition straddles (first second : point) : bool :=
  ((first.1 <? 180) && (180 <? second.1)) ||
  ((180 <? first.1) && (second.1 <? 180)).

(** The body of the loop of lines 149-162, for the edge [first -> second]. *)
Definition split_edge (first second : point) (polys : ring * ring) : ring * ring :=
  let '(poly1, poly2) := polys in
  if straddles first second then
    let new_lat := np_interp 180 (first.1, second.1) (first.2, second.2) in
    (poly1 ++ [(180, new_lat)], poly2 ++ [(180, new_lat)])
  else if first.1 <? 180 then (poly1 ++ [first], poly2)
  else (poly1, poly2 ++ [first]).

(** [for idx in range(len(polygon)-1)] with [first = polygon[idx]] and
    [second = polygon[idx+1]]. *)
Fixpoint split_loop (polygon : ring) (polys : ring * ring) : ring * ring :=
  match polygon with
  | [] => polys
  | first :: rest =>
      match rest with
      | [] => polys
      | second :: _ => split_loop rest (split_edge first second polys)
      end
  end.

(** The edges the loop visits, and what one edge appends to each list. *)
Definition edges (polygon : ring) : list (point * point) :=
  zip polygon (tail polygon).

Definition edge_part1 (e : point * point) : ring :=
  (split_edge e.1 e.2 ([], [])).1.

Definition edge_part2 (e : point * point) : ring :=
  (split_edge e.1 e.2 ([], [])).2.

(** The number of edges that straddle the antimeridian. *)
Definition crossings (polygon : ring) : nat :=
  length (List.filter (λ e : point * point, straddles e.1 e.2) (edges polygon)).

(** [poly.append(poly[0])]: [IndexError] on an empty list. *)
Definition close_ring (poly : ring) : res ring :=
  match poly with
  | [] => Raise IndexError
  | p0 :: _ => Ok (poly ++ [p0])
  end.

(** Line 169: [[-180 + (point[0]-180), point[1]]]. *)
Definition wrap_point (pt : point) : point := (-180 + (pt.1 - 180), pt.2).

(** Lines 147-169: the two rings handed to shapely, [poly1] and
    [poly2_wrapped]. *)
Definition split_rings (polygon : ring) : res (ring * ring) :=
  let '(poly1, poly2) := split_loop polygon ([], []) in
  poly1 ← close_ring poly1;
  poly2 ← close_ring poly2;
  let poly2_wrapped := map wrap_point poly2 in
  Ok (poly1, poly2_wrapped).

Definition split_antimeridian_polygon (polygon : ring) : res (ring * ring) :=
  '(poly1, poly2_wrapped) ← split_rings polygon;
  mapping1 ← shapely_Polygon poly1;
  polygon2 ← shapely_Polygon poly2_wrapped;
  let mapping2 := shapely_orient polygon2 in
  Ok (mapping1, mapping2).

(** Lines 178-186: the boundary ring of the footprint. *)
Definition footprint_ring (lat lng angle : float) : ring :=
  let p := (lng, lat) in
  let arc_length := R_MEAN * angle in
  let n_points := 20%nat in
  let d := arc_length * 1000 in
  let angles := np_linspace 0 360 n_points in
  geog_propagate p angles d.

(** Lines 196-199. *)
Definition needs_split (polygon : ring) : bool :=
  existsb (λ point, 180 <? point.1) polygon.

(** Lines 187-211.  [mapping] is [None] while the local variable is unbound. *)
Definition get_cell_ids_h3 (lat lng angle : float) : M (gset string) :=
  let polygon := footprint_ring lat lng angle in
  mapping ← match shapely_Polygon polygon with
            | Ok m => mret (Some m)
            | Raise ValueError =>
                _ ← print (PrintLatLng lat lng);
                _ ← print (PrintPolygon polygon);
                mret None
            | Raise e => raise e
            end;
  let cells : gset string := ∅ in
  if needs_split polygon then
    match split_antimeridian_polygon polygon with
    | Raise _ => _ ← print (PrintLatLng lat lng); mret cells
    | Ok (first, second) =>
        match h3_polyfill first with
        | Raise _ => _ ← print (PrintLatLng lat lng); mret cells
        | Ok filled1 =>
            let cells := cells ∪ filled1 in
            match h3_polyfill second with
            | Raise _ => _ ← print (PrintLatLng lat lng); mret cells
            | Ok filled2 => mret (cells ∪ filled2)
            end
        end
    end
  else
    match mapping with
    | None => raise UnboundLocalError
    | Some m => lift (h3_polyfill m)
    end.

End WithLibs.
End Raster.

(* ===================================================================== *)
(** * Accumulation loop (lines 243-291)                                   *)
(* ===================================================================== *)

Module Coverage.
Import Raster.

(** [sat.at(time).subpoint()]: degrees, degrees, kilometres. *)
Record Subpoint : Type := {
  latitude : float;
  longitude : float;
  elevation_km : float
}.

(** A loaded satellite: its name and skyfield's position at the minute
    [ts.utc(2020, 6, 21, 0, minute, 0)]. *)
Record EarthSatellite : Type := {
  name : string;
  subpoint_at : Z → Subpoint
}.

(** What the loop takes from outside: the filtered satellites [op_sats] and
    [calcCapAngle] as binary64 evaluates it ([Geometry.calcCapAngle] is its
    reading over the reals). *)
Class World : Type := {
  op_sats : list EarthSatellite;
  calcCapAngle_f64 : float → float → res float
}.

(** A Python [dict] in insertion order: assigning to a present key keeps
    the key's position and replaces its value. *)
Fixpoint dict_set {V} (d : list (string * V)) (k : string) (v : V) : list (string * V) :=
  match d with
  | [] => [(k, v)]
  | (k', v') :: d' =>
      if String.eqb k' k then (k', v) :: d' else (k', v') :: dict_set d' k v
  end.

Definition dict_of {V} (items : list (string * V)) : list (string * V) :=
  foldl (λ d kv, dict_set d kv.1 kv.2) [] items.

(** [d.get(k)]: the value stored under a key, if any. *)
Fixpoint dict_get {V} (d : list (string * V)) (k : string) : option V :=
  match d with
  | [] => None
  | (k', v') :: d' => if String.eqb k' k then Some v' else dict_get d' k
  end.

(** The last value a list of items gives to a key. *)
Fixpoint last_value {V} (items : list (string * V)) (k : string) : option V :=
  match items with
  | [] => None
  | (k', v') :: rest =>
      match last_value rest k with
      | Some v => Some v
      | None => if String.eqb k' k then Some v' else None
      end
  end.

(** Lines 259-264, on the lines [fd.readlines()] returns; [strip] is
    [str.strip]. *)
Definition readTokens (strip : string → string) (lines : list string)
    (coverage : gmap string Z) : gmap string Z :=
  foldl (λ cov line, let tok := strip line in <[tok := 0%Z]> cov) coverage lines.

(** Lines 267-270, on the lines [fd.readlines()] returns. *)
Definition readH3Indices (strip : string → string) (lines : list string)
  : list string :=
  map strip lines.

(** [TIME_PER_PROCESS = 1440 // 4] *)
Definition TIME_PER_PROCESS : nat := 1440 / 4.

(** Lines 290-291: [for cell in coverage_set: coverage[cell] += 1] on a
    [defaultdict(int)]. *)
Definition accumulate (coverage : gmap string Z) (coverage_set : gset string)
  : gmap string Z :=
  set_fold (λ cell cov, <[cell := (default 0 (cov !! cell) + 1)%Z]> cov)
           coverage coverage_set.

(** Lines 286-289: the check on an empty set, then
    [for cell in cells: coverage_set.add(cell)]. *)
Definition add_cells (cells coverage_set : gset string) : M (gset string) :=
  _ ← (if bool_decide (size cells = 0%nat)
       then expr_stmt (Exception "empty region returned")
       else mret tt);
  mret (set_fold (λ cell acc, {[cell]} ∪ acc) coverage_set cells).

Section WithWorld.
Context `{Libs} `{World}.

(** Lines 283-285: the cell set of one satellite. *)
Definition sat_footprint (sat : Subpoint) : M (gset string) :=
  angle ← lift (calcCapAngle_f64 (elevation_km sat) 35);
  get_cell_ids_h3 (latitude sat) (longitude sat) angle.

(** Lines 283-289, for one satellite. *)
Definition sat_cells (sat : Subpoint) (coverage_set : gset string) : M (gset string) :=
  cells ← sat_footprint sat;
  add_cells cells coverage_set.

(** Lines 282-289: [for sat_name, sat in subpoints.items()]. *)
Fixpoint sats_loop (items : list (string * Subpoint)) (coverage_set : gset string)
  : M (gset string) :=
  match items with
  | [] => mret coverage_set
  | (sat_name, sat) :: rest =>
      coverage_set ← sat_cells sat coverage_set;
      sats_loop rest coverage_set
  end.

(** Line 280: [{sat.name: sat.at(time).subpoint() for sat in op_sats}]. *)
Definition subpoints (time : Z) : list (string * Subpoint) :=
  dict_of (map (λ sat, (name sat, subpoint_at sat time)) op_sats).

(** Lines 280-289: the cell set of the minute [time]. *)
Definition step_cells (time : Z) : M (gset string) :=
  let coverage_set : gset string := ∅ in
  sats_loop (subpoints time) coverage_set.

(** Lines 277-291: one iteration of the outer loop. *)
Definition step (START_TIME : Z) (i : nat) (coverage : gmap string Z)
  : M (gmap string Z) :=
  let time := (START_TIME + Z.of_nat i)%Z in
  _ ← (if (i mod 30 =? 0)%nat then print (PrintTime time) else mret tt);
  coverage_set ← step_cells time;
  mret (accumulate coverage coverage_set).

Fixpoint steps_loop (START_TIME : Z) (indices : list nat) (coverage : gmap string Z)
  : M (gmap string Z) :=
  match indices with
  | [] => mret coverage
  | i :: rest =>
      coverage ← step START_TIME i coverage;
      steps_loop START_TIME rest coverage
  end.

(** Lines 256 and 273-291 with the window length as a parameter:
    [coverage] starts as an empty [defaultdict(int)]. *)
Definition simulate (time_per_process : nat) (process : Z) : M (gmap string Z) :=
  let START_TIME := (process * Z.of_nat time_per_process)%Z in
  steps_loop START_TIME (seq 0 time_per_process) ∅.

(** The loop of the script for [process = int(sys.argv[1])].  The lookups
    of lines 251-254, which run once before the loop, are not part of it. *)
Definition main (process : Z) : M (gmap string Z) :=
  simulate TIME_PER_PROCESS process.

(** The histogram after the minutes [times], one after the other, without
    the printed output: what the outer loop computes when it visits them. *)
Fixpoint run_times (times : list Z) (coverage : gmap string Z) : res (gmap string Z) :=
  match times with
  | [] => Ok coverage
  | time :: rest =>
      coverage_set ← (step_cells time).2;
      run_times rest (accumulate coverage coverage_set)
  end.

(** Whether the set of the minute [time] is built and holds [cell]. *)
Definition covers (cell : string) (time : Z) : bool :=
  match (step_cells time).2 with
  | Ok coverage_set => bool_decide (cell ∈ coverage_set)
  | Raise _ => false
  end.

End WithWorld.

(** The minutes partition [process] simulates. *)
Definition partition_steps (process : Z) : list Z :=
  map (λ i, (process * Z.of_nat TIME_PER_PROCESS + Z.of_nat i)%Z)
      (seq 0 TIME_PER_PROCESS).

(** The merge of two persisted histograms: counts are summed cell by cell. *)
Definition merge (h1 h2 : gmap string Z) : gmap string Z :=
  union_with (λ a b, Some (a + b)%Z) h1 h2.

(** Merging the outcomes of two runs: a run that raised leaves no
    histogram to merge, and the exception of the earlier run is the one
    seen. *)
Definition merge_res (r1 r2 : res (gmap string Z)) : res (gmap string Z) :=
  h1 ← r1; h2 ← r2; Ok (merge h1 h2).

(** The count a [defaultdict(int)] reads for a cell. *)
Definition count (coverage : gmap string Z) (cell : string) : Z :=
  default 0%Z (coverage !! cell).

(** Line 293: the file name [f"h3_{H3_RESOLUTION_LEVEL}_cov_{process}.txt"];
    [pretty] writes an integer in decimal as [str] does. *)
Definition output_name (process : Z) : string :=
  "h3_" +:+ pretty H3_RESOLUTION_LEVEL +:+ "_cov_" +:+ pretty process +:+ ".txt".

(** Line 295: the line [f"{cell},{cov}\n"]. *)
Definition output_line (cell : string) (cov : Z) : string :=
  cell +:+ "," +:+ pretty cov +:+ String "010"%char "".

(** Lines 294-295, on the items of [coverage] in the order [items()]
    yields them. *)
Definition output_lines (items : list (string * Z)) : list string :=
  map (λ item, output_line item.1 item.2) items.

(** Whether a cell identifier holds a comma. *)
Fixpoint has_comma (s : string) : bool :=
  match s with
  | EmptyString => false
  | String a rest => if Ascii.eqb a ","%char then true else has_comma rest
  end.

End Coverage.

(* ===================================================================== *)
(** * Stand-ins for the libraries, to run the embedding on inputs         *)
(* ===================================================================== *)

Module Demo.
Import Raster Coverage.
Local Open Scope float_scope.

(** Piecewise-linear cosine and sine of an angle in degrees, of period 360
    on [0, 720). *)
Definition fold_angle (angle : float) : float :=
  if 360 <=? angle then angle - 360 else angle.

Definition tri_cos (angle : float) : float :=
  let a := fold_angle angle in
  if a <=? 180 then 1 - a / 90 else a / 90 - 3.

Definition tri_sin (angle : float) : float :=
  let a := fold_angle angle in
  if a <=? 90 then a / 90 else if a <=? 270 then 2 - a / 90 else a / 90 - 4.

(** Propagation on a flat map, 111195 metres to the degree; like
    [geog.propagate] with [bearing=False] the angle is counted from east. *)
Definition demo_propagate1 (p : point) (angle d : float) : point :=
  let r := d / 111195 in
  (p.1 + r * tri_cos angle, p.2 + r * tri_sin angle).

(** Twice the signed area of a ring (shoelace formula). *)
Fixpoint shoelace (r : ring) : float :=
  match r with
  | [] => 0
  | p :: rest =>
      match rest with
      | [] => 0
      | q :: _ => (p.1 * q.2 - q.1 * p.2) + shoelace rest
      end
  end.

(** Whether a coordinate of the ring is NaN. *)
Definition has_nan (r : ring) : bool :=
  existsb (λ pt, is_nan pt.1 || is_nan pt.2) r.

(** A polygon constructor that refuses, with [ValueError], rings of fewer
    than three vertices and rings with a NaN coordinate, as shapely does; a
    ring without area is accepted. *)
Definition demo_Polygon (r : ring) : res ring :=
  if (length r <? 3)%nat then Raise ValueError
  else if has_nan r then Raise ValueError
  else Ok r.

(** Counter-clockwise orientation: a ring of negative area is reversed. *)
Definition demo_orient (r : ring) : ring :=
  if shoelace r <? 0 then rev r else r.

(** A grid of two cells between 80S and 80N, one per hemisphere, a ring
    filling the cells its vertices fall in. *)
Definition demo_cell (pt : point) : gset string :=
  if (pt.2 <? -80) || (80 <? pt.2) then ∅
  else if pt.1 <? 0 then {[ "west" ]} else {[ "east" ]}.

Definition demo_polyfill (r : ring) : res (gset string) :=
  Ok (foldr (λ pt acc, demo_cell pt ∪ acc) ∅ r).

Definition demo_libs : Libs := {|
  geog_propagate1 := demo_propagate1;
  shapely_Polygon := demo_Polygon;
  shapely_orient := demo_orient;
  h3_polyfill := demo_polyfill;
  np_interp := np_interp2
|}.

(** A library that hands back the angle and the distance it is asked to
    propagate along, to read them off the ring. *)
Definition probe_libs : Libs := {|
  geog_propagate1 := λ _ angle d, (angle, d);
  shapely_Polygon := demo_Polygon;
  shapely_orient := demo_orient;
  h3_polyfill := demo_polyfill;
  np_interp := np_interp2
|}.

(** The cap angles of the altitudes the examples use: 550 km at 35 degrees
    gives about 0.1056 rad, the ground level gives 0, and a NaN altitude
    goes through the arithmetic, [math.sin] and [math.asin] as NaN. *)
Definition demo_calcCapAngle (altitude term_angle : float) : res float :=
  if altitude =? 550 then Ok 0.1056
  else if altitude =? 0 then Ok 0
  else if is_nan altitude then Ok nan
  else Raise ValueError.

(** The values of the C library's [sin] and [asin] at the arguments the
    evaluations below reach: [sin] at the doubles next to pi/2 and to pi,
    [asin] at 1 and at the double [sin] gives next to pi.  The table has no
    other entry. *)
Definition libm_table : Geometry64.Libm := {|
  Geometry64.libm_sin := λ x,
    if x =? 1.5707963267948966 then 1
    else if x =? 3.141592653589793 then 1.2246467991473532e-16
    else nan;
  Geometry64.libm_asin := λ x,
    if x =? 1 then 1.5707963267948966
    else if x =? 1.2246467991473532e-16 then 1.2246467991473532e-16
    else nan
|}.

Definition fixed_sat (sat_name : string) (lat lng altitude : float) : EarthSatellite :=
  {| name := sat_name;
     subpoint_at := λ _, {| latitude := lat; longitude := lng;
                            elevation_km := altitude |} |}.

(** Over the Gulf of Guinea, next to the antimeridian, and a third one that
    sits west of Greenwich during the first twelve hours only. *)
Definition sat_null_island : EarthSatellite := fixed_sat "STARLINK-1" 0 0 550.
Definition sat_dateline : EarthSatellite := fixed_sat "STARLINK-2" 0 179.5 550.
Definition sat_morning : EarthSatellite :=
  {| name := "STARLINK-3";
     subpoint_at := λ minute,
       {| latitude := 0;
          longitude := if (minute <? 720)%Z then -30 else 30;
          elevation_km := 550 |} |}.

(** Over the pole, and one whose propagation failed: skyfield gives NaN
    for its position. *)
Definition sat_polar : EarthSatellite := fixed_sat "STARLINK-4" 90 0 550.
Definition sat_lost : EarthSatellite := fixed_sat "STARLINK-5" nan nan nan.

Definition demo_world : World := {|
  op_sats := [sat_null_island; sat_dateline; sat_morning];
  calcCapAngle_f64 := demo_calcCapAngle
|}.

Definition lost_world : World := {|
  op_sats := [sat_null_island; sat_lost];
  calcCapAngle_f64 := demo_calcCapAngle
|}.

(** A ring crossing the antimeridian twice: eastwards between its second
    and third vertex, westwards between its fourth and fifth. *)
Definition seam_ring : ring :=
  [(170, 0); (179, 1); (181, 1); (181, -1); (179, -1); (170, 0)].

(** A ring with a vertex on the antimeridian itself. *)
Definition ring180 : ring := [(170, 0); (180, 1); (181, 0); (170, 0)].

End Demo.

(* ===================================================================== *)
(** * Facts about the geometry kernel                                     *)
(* ===================================================================== *)

Section GeometryFacts.
Import Geometry.
Local Open Scope R_scope.

Lemma R_MEAN_pos : 0 < R_MEAN.
Proof. unfold R_MEAN. lra. Qed.

Lemma RIGHT_ANGLE_PI2 : RIGHT_ANGLE = PI / 2.
Proof. unfold RIGHT_ANGLE, to_rads. field. Qed.

(** [sin(epsilon + RIGHT_ANGLE)] is the cosine of the elevation. *)
Lemma sin_plus_RIGHT_ANGLE (x : R) : sin (x + RIGHT_ANGLE) = cos x.
Proof.
  rewrite RIGHT_ANGLE_PI2, Rplus_comm. symmetry. apply Rtrigo1.cos_sin.
Qed.

Lemma ratio_bounds (h : R) : 0 < h → 0 < ratio h < 1.
Proof.
  intros Hh. pose proof R_MEAN_pos as HR. unfold ratio. split.
  - apply Rdiv_lt_0_compat; lra.
  - apply (Rmult_lt_reg_r (R_MEAN + h)); [lra |].
    unfold Rdiv. rewrite Rmult_assoc, Rinv_l by lra. lra.
Qed.

Lemma ratio_antitone (h h' : R) : 0 < h → h <= h' → ratio h' <= ratio h.
Proof.
  intros Hh Hle. pose proof R_MEAN_pos as HR. unfold ratio, Rdiv.
  apply Rmult_le_compat_l; [lra |].
  apply Rinv_le_contravar; lra.
Qed.

Lemma asin_le (x y : R) : -1 <= x → x <= y → y <= 1 → asin x <= asin y.
Proof.
  intros Hx Hxy Hy.
  destruct (Rle_lt_dec (asin x) (asin y)) as [Hle | Hlt]; [exact Hle |].
  exfalso.
  pose proof (asin_bound x) as [Hx1 Hx2].
  pose proof (asin_bound y) as [Hy1 Hy2].
  pose proof (sin_increasing_1 _ _ Hy1 Hy2 Hx1 Hx2 Hlt) as Hs.
  rewrite !sin_asin in Hs by lra. lra.
Qed.

Lemma asin_lt (x y : R) : -1 <= x → x < y → y <= 1 → asin x < asin y.
Proof.
  intros Hx Hxy Hy.
  destruct (Rle_lt_dec (asin y) (asin x)) as [Hle | Hlt]; [| exact Hlt].
  exfalso.
  pose proof (asin_bound x) as [Hx1 Hx2].
  pose proof (asin_bound y) as [Hy1 Hy2].
  pose proof (sin_incr_1 _ _ Hy1 Hy2 Hx1 Hx2 Hle) as Hs.
  rewrite !sin_asin in Hs by lra. lra.
Qed.

(** The argument handed to [math.asin] for a positive altitude stays within
    [-1, 1], and the divisor is not zero: nothing is raised. *)
Lemma asin_argument_in_range (h x : R) :
  0 < h → -1 <= sin x * R_MEAN / (R_MEAN + h) <= 1.
Proof.
  intros Hh. pose proof (ratio_bounds h Hh) as [Hk0 Hk1].
  pose proof (SIN_bound x) as [Hs0 Hs1].
  replace (sin x * R_MEAN / (R_MEAN + h)) with (sin x * ratio h)
    by (unfold ratio; field; pose proof R_MEAN_pos; lra).
  split; nra.
Qed.

(** What [calcCapAngle] computes for a positive altitude. *)
Lemma calcCapAngle_value (h e : R) :
  0 < h →
  calcCapAngle h e
  = Ok (PI / 2 - to_rads e - asin (cos (to_rads e) * ratio h)).
Proof.
  intros Hh. pose proof R_MEAN_pos as HR.
  unfold calcCapAngle, float_div, math_asin.
  destruct (Req_dec_T (R_MEAN + h) 0) as [Hz | _]; [lra |].
  cbn.
  pose proof (asin_argument_in_range h (to_rads e + RIGHT_ANGLE) Hh) as [Hlo Hhi].
  destruct (Rle_dec _ _) as [_ | Hn]; [| contradiction].
  destruct (Rle_dec _ _) as [_ | Hn]; [| contradiction].
  cbn. f_equal.
  rewrite sin_plus_RIGHT_ANGLE, RIGHT_ANGLE_PI2.
  replace (cos (to_rads e) * R_MEAN / (R_MEAN + h))
    with (cos (to_rads e) * ratio h) by (unfold ratio; field; lra).
  field.
Qed.

Lemma spec_capHalfAngle_value (h e : R) :
  0 < h →
  spec_capHalfAngle h e
  = PI / 2 - to_rads e - asin (cos (to_rads e) * ratio h).
Proof.
  intros Hh. pose proof R_MEAN_pos as HR.
  unfold spec_capHalfAngle, spec_lambda, spec_eta.
  replace (e * PI / 180) with (to_rads e) by (unfold to_rads; field).
  rewrite <- RIGHT_ANGLE_PI2 at 2. rewrite sin_plus_RIGHT_ANGLE.
  replace (cos (to_rads e) * R_MEAN / (R_MEAN + h))
    with (cos (to_rads e) * ratio h) by (unfold ratio; field; lra).
  field.
Qed.

Lemma half_angle_as_cap (h e : R) :
  PI / 2 - to_rads e - asin (cos (to_rads e) * ratio h)
  = cap (ratio h) (PI / 2 - to_rads e).
Proof.
  unfold cap. rewrite sin_shift. rewrite (Rmult_comm (ratio h)). ring.
Qed.

Lemma to_rads_range (e : R) : 0 <= e < 90 → 0 < PI / 2 - to_rads e <= PI / 2.
Proof.
  intros [H0 H90]. pose proof PI_RGT_0 as Hpi. unfold to_rads. split.
  - apply Rlt_0_minus.
    replace (PI / 2) with (90 * (PI / 180)) by field.
    apply Rmult_lt_compat_r; lra.
  - assert (0 <= e * (PI / 180)) by (apply Rmult_le_pos; lra). lra.
Qed.

Lemma to_rads_le (e e' : R) : e <= e' → to_rads e <= to_rads e'.
Proof.
  intros Hle. pose proof PI_RGT_0 as Hpi. unfold to_rads.
  apply Rmult_le_compat_r; lra.
Qed.

Section Cap.
Variable k : R.
Hypothesis k_pos : 0 < k.
Hypothesis k_lt_1 : k < 1.

Lemma cap_arg (theta : R) :
  0 < theta <= PI / 2 → 0 < k * sin theta < sin theta ∧ sin theta <= 1.
Proof.
  intros [H0 H1]. pose proof PI_RGT_0 as Hpi.
  assert (0 < sin theta) by (apply sin_gt_0; lra).
  pose proof (SIN_bound theta) as [_ Hs]. repeat split; nra.
Qed.

Lemma cap_asin_bounds (theta : R) :
  0 < theta <= PI / 2 → 0 < asin (k * sin theta) < theta.
Proof.
  intros Ht. destruct (cap_arg theta Ht) as [[Ha Hb] Hs]. split.
  - rewrite <- asin_0. apply asin_lt; lra.
  - rewrite <- (asin_sin theta) at 2 by lra. apply asin_lt; lra.
Qed.

Lemma cap_range (theta : R) : 0 < theta <= PI / 2 → 0 < cap k theta < PI / 2.
Proof.
  intros Ht. pose proof (cap_asin_bounds theta Ht). unfold cap. lra.
Qed.

(** A larger co-elevation gives a larger cap: the arcsine term grows more
    slowly than the angle itself. *)
Lemma cap_monotone (t2 t1 : R) :
  0 < t2 → t2 <= t1 → t1 <= PI / 2 → cap k t2 <= cap k t1.
Proof.
  intros H2 H21 H1. pose proof PI_RGT_0 as Hpi.
  set (b1 := asin (k * sin t1)). set (b2 := asin (k * sin t2)).
  assert (Hb1 : 0 < b1 < t1) by (apply cap_asin_bounds; lra).
  assert (Hb2 : 0 < b2 < t2) by (apply cap_asin_bounds; lra).
  destruct (cap_arg t1 ltac:(lra)) as [[Ha1 Hc1] Hs1].
  destruct (cap_arg t2 ltac:(lra)) as [[Ha2 Hc2] Hs2].
  assert (Hsb1 : sin b1 = k * sin t1) by (apply sin_asin; lra).
  assert (Hsb2 : sin b2 = k * sin t2) by (apply sin_asin; lra).
  assert (Hs21 : sin t2 <= sin t1) by (apply sin_incr_1; lra).
  assert (Hb21 : b2 <= b1) by (apply asin_le; nra).
  unfold cap. fold b1 b2.
  destruct (Rle_lt_dec (b1 - b2) (t1 - t2)) as [Hle | Hgt]; [lra |].
  exfalso.
  pose proof (form4 b1 b2) as Fb. pose proof (form4 t1 t2) as Ft.
  set (B := (b1 + b2) / 2) in *. set (T := (t1 + t2) / 2) in *.
  set (db := (b1 - b2) / 2) in *. set (dt := (t1 - t2) / 2) in *.
  assert (HB : 0 < B < T) by (unfold B, T; lra).
  assert (HT : T <= PI / 2) by (unfold T; lra).
  assert (Hdt : 0 <= dt < db) by (unfold dt, db; lra).
  assert (Hdb : db <= PI / 4) by (unfold db; lra).
  assert (HcosBT : cos T < cos B) by (apply cos_decreasing_1; lra).
  assert (HcosT : 0 <= cos T) by (apply cos_ge_0; lra).
  assert (Hsdt : 0 <= sin dt) by (apply sin_ge_0; lra).
  assert (Hsin : sin dt < sin db) by (apply sin_increasing_1; lra).
  assert (Heq : cos B * sin db = k * (cos T * sin dt)) by nra.
  assert (Hlt1 : cos B * sin dt < cos B * sin db)
    by (apply Rmult_lt_compat_l; lra).
  assert (Hle2 : cos T * sin dt <= cos B * sin dt)
    by (apply Rmult_le_compat_r; lra).
  assert (Hnn : 0 <= cos T * sin dt) by (apply Rmult_le_pos; lra).
  nra.
Qed.

(** A smaller ratio (a higher satellite) gives a larger cap. *)
Lemma cap_antitone_ratio (k' theta : R) :
  0 < k' → k' <= k → 0 < theta <= PI / 2 → cap k theta <= cap k' theta.
Proof.
  intros Hk' Hle Ht. destruct (cap_arg theta Ht) as [[Ha Hb] Hs].
  unfold cap.
  assert (asin (k' * sin theta) <= asin (k * sin theta)); [| lra].
  apply asin_le; nra.
Qed.

End Cap.

(** The degenerate input: altitude 0, elevation 90 degrees. *)
Lemma degenerate_asin_argument :
  sin (to_rads 90 + RIGHT_ANGLE) * R_MEAN / (R_MEAN + 0) = 0.
Proof.
  pose proof R_MEAN_pos as HR.
  rewrite sin_plus_RIGHT_ANGLE.
  replace (to_rads 90) with (PI / 2) by (unfold to_rads; field).
  rewrite cos_PI2. field. lra.
Qed.

Lemma calcCapAngle_degenerate : calcCapAngle 0 90 = Ok 0.
Proof.
  pose proof R_MEAN_pos as HR.
  unfold calcCapAngle, float_div, math_asin.
  destruct (Req_dec_T (R_MEAN + 0) 0) as [Hz | _]; [lra |].
  cbn. rewrite degenerate_asin_argument.
  destruct (Rle_dec (-1) 0) as [_ | Hn]; [| lra].
  destruct (Rle_dec 0 1) as [_ | Hn]; [| lra].
  cbn. f_equal. rewrite asin_0, RIGHT_ANGLE_PI2.
  unfold to_rads. field.
Qed.





(** C6, as the code has it: for altitude 0 and elevation 90 degrees
    [calcCapAngle] raises nothing and returns the angle 0. *)
Theorem calcCapAngle_degenerate_returns_zero :
  calcCapAngle 0 90 = Ok 0 ∧ ∀ err, calcCapAngle 0 90 ≠ Raise err.
Proof.
  rewrite calcCapAngle_degenerate. split; [reflexivity |].
  intros err Herr. discriminate Herr.
Qed.

(** C6 as stated fails: at altitude 0, elevation 90 degrees no exception is
    raised, and the value returned is not a positive angle. *)
Lemma calcCapAngle_degenerate_raises_nothing :
  ¬ (∃ err, calcCapAngle 0 90 = Raise err) ∧
  ∃ a, calcCapAngle 0 90 = Ok a ∧ a <= 0.
Proof.
  rewrite calcCapAngle_degenerate. split.
  - intros [err Herr]. discriminate Herr.
  - exists 0. split; [reflexivity | lra].
Qed.

End GeometryFacts.

(* ===================================================================== *)
(** * The geometry kernel in binary64                                     *)
(* ===================================================================== *)

Section Geometry64Facts.
Import Geometry64.
Context `{Libm}.
Local Open Scope float_scope.

(** [RIGHT_ANGLE] is the double next to pi/2, and [to_rads 90 + RIGHT_ANGLE]
    is [math.pi]. *)
Lemma RIGHT_ANGLE_binary64 :
  RIGHT_ANGLE = 1.5707963267948966 ∧ to_rads 90 + RIGHT_ANGLE = math_pi.
Proof. split; reflexivity. Qed.

(** An altitude below half the spacing of the doubles around [R_MEAN] is
    absorbed by the sum of line 88. *)
Lemma altitude_absorbed : R_MEAN + 1e-13 = R_MEAN.
Proof. reflexivity. Qed.

(** Elevation 0 and an absorbed altitude: the argument of [math.asin] is 1,
    [eta_FOV] a right angle and the result 0.0, with a C library that gives
    [sin] of the double next to pi/2 as 1 and [asin 1] as that double. *)
Lemma calcCapAngle64_absorbed_altitude :
  libm_sin 1.5707963267948966 = 1 →
  libm_asin 1 = 1.5707963267948966 →
  calcCapAngle 1e-13 0 = Ok 0.
Proof.
  intros Hsin Hasin. unfold calcCapAngle, math_sin.
  change (to_rads 0 + RIGHT_ANGLE) with 1.5707963267948966.
  change (is_infinity 1.5707963267948966) with false. cbv iota.
  rewrite Hsin. cbn [mbind res_mbind res_bind].
  change (float_div (1 * R_MEAN) (R_MEAN + 1e-13)) with (Ok 1 : res float).
  cbn [mbind res_mbind res_bind]. unfold math_asin.
  change ((1 <? -1) || (1 <? 1)) with false. cbv iota.
  rewrite Hasin. cbn [mbind res_mbind res_bind].
  reflexivity.
Qed.

(** Altitude 0 and elevation 90 degrees: [math.sin] is evaluated at
    [math.pi], the quotient and [math.asin] hand its tiny value on, and the
    sum of line 90 absorbs it: the result is 0.0. *)
Lemma calcCapAngle64_degenerate :
  libm_sin 3.141592653589793 = 1.2246467991473532e-16 →
  libm_asin 1.2246467991473532e-16 = 1.2246467991473532e-16 →
  calcCapAngle 0 90 = Ok 0.
Proof.
  intros Hsin Hasin. unfold calcCapAngle, math_sin.
  change (to_rads 90 + RIGHT_ANGLE) with 3.141592653589793.
  change (is_infinity 3.141592653589793) with false. cbv iota.
  rewrite Hsin. cbn [mbind res_mbind res_bind].
  change (float_div (1.2246467991473532e-16 * R_MEAN) (R_MEAN + 0))
    with (Ok 1.2246467991473532e-16 : res float).
  cbn [mbind res_mbind res_bind]. unfold math_asin.
  change ((1.2246467991473532e-16 <? -1) || (1 <? 1.2246467991473532e-16))
    with false. cbv iota.
  rewrite Hasin. cbn [mbind res_mbind res_bind].
  reflexivity.
Qed.

End Geometry64Facts.


(* ===================================================================== *)
(** * Facts about the antimeridian split                                  *)
(* ===================================================================== *)

Section SplitFacts.
Import Raster.
Context `{Libs}.
Local Open Scope float_scope.

(** Two binary64 values that [=?] tells apart are different. *)
Lemma float_neq (x y : float) : (x =? y) = false → (y =? y) = true → x ≠ y.
Proof. intros Hxy Hyy ->. rewrite Hyy in Hxy. discriminate Hxy. Qed.

Lemma split_edge_app (first second : point) (poly1 poly2 : ring) :
  split_edge first second (poly1, poly2)
  = (poly1 ++ edge_part1 (first, second), poly2 ++ edge_part2 (first, second)).
Proof.
  unfold edge_part1, edge_part2, split_edge. cbn [fst snd].
  destruct (straddles first second); [reflexivity |].
  destruct (first.1 <? 180); cbn [fst snd app]; rewrite ?app_nil_r; reflexivity.
Qed.

(** The loop appends, edge after edge, what each edge contributes. *)
Lemma split_loop_edges (polygon : ring) (poly1 poly2 : ring) :
  split_loop polygon (poly1, poly2)
  = (poly1 ++ flat_map edge_part1 (edges polygon),
     poly2 ++ flat_map edge_part2 (edges polygon)).
Proof.
  revert poly1 poly2.
  induction polygon as [| first rest IH]; intros poly1 poly2.
  - cbn. rewrite !app_nil_r. reflexivity.
  - destruct rest as [| second rest'].
    + cbn. rewrite !app_nil_r. reflexivity.
    + change (split_loop (first :: second :: rest') (poly1, poly2))
        with (split_loop (second :: rest') (split_edge first second (poly1, poly2))).
      rewrite split_edge_app, IH.
      change (edges (first :: second :: rest'))
        with ((first, second) :: edges (second :: rest')).
      cbn [flat_map]. rewrite <- !app_assoc. reflexivity.
Qed.

(** An edge with an endpoint at exactly 180 does not straddle. *)
Lemma straddles_first_180 (lat : float) (second : point) :
  straddles (180, lat) second = false.
Proof. unfold straddles. cbn. reflexivity. Qed.

Lemma straddles_second_180 (first : point) (lat : float) :
  straddles first (180, lat) = false.
Proof.
  unfold straddles. cbn [fst snd].
  change (180 <? 180) with false. change (180 <? 180) with false.
  rewrite !andb_false_r. reflexivity.
Qed.

(** What an edge puts on [poly1]: its first vertex if that lies strictly
    below 180, or the crossing point at 180 if the edge straddles. *)
Lemma edge_part1_cases (first second : point) :
  (straddles first second = true ∧
   edge_part1 (first, second)
   = [(180, np_interp 180 (first.1, second.1) (first.2, second.2))]) ∨
  (straddles first second = false ∧ (first.1 <? 180) = true ∧
   edge_part1 (first, second) = [first]) ∨
  (straddles first second = false ∧ (first.1 <? 180) = false ∧
   edge_part1 (first, second) = []).
Proof.
  unfold edge_part1, split_edge. cbn [fst snd].
  destruct (straddles first second); [left; split; reflexivity |].
  destruct (first.1 <? 180); [right; left | right; right]; repeat split.
Qed.

Lemma edge_part2_cases (first second : point) :
  (straddles first second = true ∧
   edge_part2 (first, second)
   = [(180, np_interp 180 (first.1, second.1) (first.2, second.2))]) ∨
  (straddles first second = false ∧ (first.1 <? 180) = true ∧
   edge_part2 (first, second) = []) ∨
  (straddles first second = false ∧ (first.1 <? 180) = false ∧
   edge_part2 (first, second) = [first]).
Proof.
  unfold edge_part2, split_edge. cbn [fst snd].
  destruct (straddles first second); [left; split; reflexivity |].
  destruct (first.1 <? 180); [right; left | right; right]; repeat split.
Qed.

(** The vertex at index [idx] starts the edge to the vertex at [idx + 1]. *)
Lemma edges_lookup (polygon : ring) (idx : nat) (first second : point) :
  polygon !! idx = Some first → polygon !! S idx = Some second →
  In (first, second) (edges polygon).
Proof.
  revert idx. induction polygon as [| p rest IH]; intros idx Hf Hs; [discriminate |].
  destruct rest as [| q rest']; [destruct idx; discriminate |].
  change (edges (p :: q :: rest')) with ((p, q) :: edges (q :: rest')).
  destruct idx as [| idx'].
  - cbn in Hf, Hs. injection Hf as <-. injection Hs as <-. left. reflexivity.
  - right. apply (IH idx'); assumption.
Qed.

Lemma edges_In (polygon : ring) (first second : point) :
  In (first, second) (edges polygon) → In first polygon ∧ In second polygon.
Proof.
  induction polygon as [| p rest IH]; [intros [] |].
  destruct rest as [| q rest']; [intros [] |].
  change (edges (p :: q :: rest')) with ((p, q) :: edges (q :: rest')).
  intros [Heq | Hin].
  - injection Heq as <- <-. split; [left | right; left]; reflexivity.
  - destruct (IH Hin) as [Hf Hs]. split; right; assumption.
Qed.

(** The rings [split_rings] returns, in terms of the loop's two lists. *)
Lemma split_rings_inv (polygon ringA ringB : ring) :
  split_rings polygon = Ok (ringA, ringB) →
  ∃ poly1 poly2 p1 p2,
    poly1 = flat_map edge_part1 (edges polygon) ∧
    poly2 = flat_map edge_part2 (edges polygon) ∧
    hd_error poly1 = Some p1 ∧ hd_error poly2 = Some p2 ∧
    ringA = poly1 ++ [p1] ∧
    ringB = map wrap_point (poly2 ++ [p2]).
Proof.
  unfold split_rings. rewrite split_loop_edges. cbn [app].
  set (poly1 := flat_map edge_part1 (edges polygon)).
  set (poly2 := flat_map edge_part2 (edges polygon)).
  intros Hsplit. exists poly1, poly2.
  destruct poly1 as [| p1 poly1']; [discriminate Hsplit |].
  destruct poly2 as [| p2 poly2']; [discriminate Hsplit |].
  cbn in Hsplit. injection Hsplit as <- <-.
  exists p1, p2. repeat split; reflexivity.
Qed.

(** C10: in the loop of the split a vertex at longitude exactly 180 is
    appended to the second list and nothing is appended to the first; it is
    wrapped to longitude exactly -180; an edge ending at exactly 180 inserts
    no interpolated point.  For the rings returned: a vertex at exactly 180
    (other than the closing one) is in ring B at longitude -180, and every
    point of ring A is either a vertex of the input with longitude strictly
    below 180 or a crossing point the split inserted. *)
Theorem vertex_at_180_goes_to_ring_B :
  (∀ (lat : float) (second : point) (poly1 poly2 : ring),
     split_edge (180, lat) second (poly1, poly2)
     = (poly1, poly2 ++ [(180, lat)])) ∧
  (∀ lat : float, wrap_point (180, lat) = (-180, lat)) ∧
  (∀ (first : point) (lat : float) (poly1 poly2 : ring),
     split_edge first (180, lat) (poly1, poly2)
     = if first.1 <? 180 then (poly1 ++ [first], poly2)
       else (poly1, poly2 ++ [first])) ∧
  (∀ polygon ringA ringB : ring,
     split_rings polygon = Ok (ringA, ringB) →
     (∀ (idx : nat) (lat : float),
        polygon !! idx = Some (180, lat) → (S idx < length polygon)%nat →
        In (-180, lat) ringB) ∧
     (∀ pt : point,
        In pt ringA →
        (In pt polygon ∧ (pt.1 <? 180) = true) ∨
        (∃ first second : point,
           In (first, second) (edges polygon) ∧
           straddles first second = true ∧
           pt = (180, np_interp 180 (first.1, second.1) (first.2, second.2))))).
Proof.
  split; [| split; [| split]].
  - intros lat second poly1 poly2. unfold split_edge.
    rewrite straddles_first_180. cbn. reflexivity.
  - intros lat. reflexivity.
  - intros first lat poly1 poly2. unfold split_edge.
    rewrite straddles_second_180. reflexivity.
  - intros polygon ringA ringB Hsplit.
    destruct (split_rings_inv _ _ _ Hsplit)
      as (poly1 & poly2 & p1 & p2 & Hp1 & Hp2 & Hh1 & Hh2 & -> & ->).
    split.
    + intros idx lat Hidx Hlen.
      destruct (lookup_lt_is_Some_2 polygon (S idx) Hlen) as [second Hsec].
      pose proof (edges_lookup _ _ _ _ Hidx Hsec) as Hedge.
      change (-180, lat) with (wrap_point (180, lat)).
      apply in_map, in_or_app. left. rewrite Hp2.
      apply in_flat_map. exists ((180, lat), second). split; [exact Hedge |].
      destruct (edge_part2_cases (180, lat) second)
        as [[Hs _] | [(_ & Hlt & _) | (_ & _ & Heq)]].
      * rewrite straddles_first_180 in Hs. discriminate Hs.
      * cbn in Hlt. discriminate Hlt.
      * unfold point in *. rewrite Heq. left. reflexivity.
    + intros pt Hpt.
      assert (Hin : In pt poly1).
      { apply in_app_or in Hpt as [Hpt | [<- | []]]; [exact Hpt |].
        destruct poly1; [discriminate Hh1 |].
        injection Hh1 as ->. left. reflexivity. }
      rewrite Hp1 in Hin. apply in_flat_map in Hin as [[first second] [Hedge Hpart]].
      destruct (edge_part1_cases first second)
        as [[Hs Heq] | [(_ & Hlt & Heq) | (_ & _ & Heq)]];
        rewrite Heq in Hpart.
      * destruct Hpart as [<- | []]. right. exists first, second.
        repeat split; assumption.
      * destruct Hpart as [<- | []]. left. split; [| exact Hlt].
        apply (edges_In _ _ _ Hedge).
      * destruct Hpart.
Qed.

(** C5 on the ring [seam_ring], whatever the libraries compute: the ring
    crosses the antimeridian after its vertex (179, 1) and after its vertex
    (181, -1).  Both crossings insert a point at longitude 180 into both
    rings, both rings are closed and ring B is shifted by 360 degrees, but
    the vertex (179, 1), of longitude below 180, is not in ring A, and the
    vertex (181, -1), of longitude above 180, is not in ring B (it would be
    (-179, -1) there). *)
Theorem split_drops_vertex_before_crossing :
  let up := np_interp 180 (179, 181) (1, 1) in
  let down := np_interp 180 (181, 179) (-1, -1) in
  let ringA := [(170, 0); (180, up); (180, down); (179, -1); (170, 0)] in
  let ringB := [(-180, up); (-179, 1); (-180, down); (-180, up)] in
  split_rings Demo.seam_ring = Ok (ringA, ringB) ∧
  In (179, 1) Demo.seam_ring ∧ (179 <? 180) = true ∧ ¬ In (179, 1) ringA ∧
  In (181, -1) Demo.seam_ring ∧ (180 <? 181) = true ∧ ¬ In (-179, -1) ringB.
Proof.
  cbv zeta. split; [reflexivity |].
  assert (Hne : ∀ (x y a b : float),
             (x =? y) = false → (y =? y) = true → (x, a) ≠ (y, b)).
  { intros x y a b Hxy Hyy Heq. injection Heq as Hx _.
    exact (float_neq x y Hxy Hyy Hx). }
  assert (Hne2 : ∀ (x y a b : float),
             (a =? b) = false → (b =? b) = true → (x, a) ≠ (y, b)).
  { intros x y a b Hab Hbb Heq. injection Heq as _ Ha.
    exact (float_neq a b Hab Hbb Ha). }
  repeat split.
  - right. left. reflexivity.
  - intros Hin. repeat destruct Hin as [Hin | Hin]; try contradiction;
      match type of Hin with
      | (?x, ?a) = (?y, ?b) =>
          first [ exact (Hne x y a b eq_refl eq_refl Hin)
                | exact (Hne2 x y a b eq_refl eq_refl Hin) ]
      end.
  - right. right. right. left. reflexivity.
  - intros Hin. repeat destruct Hin as [Hin | Hin]; try contradiction;
      match type of Hin with
      | (?x, ?a) = (?y, ?b) =>
          first [ exact (Hne x y a b eq_refl eq_refl Hin)
                | exact (Hne2 x y a b eq_refl eq_refl Hin) ]
      end.
Qed.

End SplitFacts.

Lemma vertex_at_180_goes_to_ring_B_witness :
  @Raster.split_rings Demo.demo_libs Demo.ring180
  = Ok ([(170, 0); (180, 0); (170, 0)]%float,
        [(-180, 1); (-180, 0); (-180, 1)]%float) ∧
  Demo.ring180 !! 1%nat = Some (180, 1)%float ∧
  In (-180, 1)%float [(-180, 1); (-180, 0); (-180, 1)]%float.
Proof.
  split; [vm_compute; reflexivity |]. split; [reflexivity |].
  destruct (@vertex_at_180_goes_to_ring_B Demo.demo_libs) as (_ & _ & _ & Hrings).
  destruct (Hrings Demo.ring180 _ _ eq_refl) as [HB _].
  apply (HB 1%nat 1%float); [reflexivity | cbn; lia].
Defined.

(** With numpy's [np.interp] a crossing from above 180 to below 180 hands
    it decreasing abscissas: the value returned is the latitude of the
    second vertex, not the latitude on the segment at longitude 180. *)
Lemma np_interp2_descending (x0 x1 y0 y1 : float) :
  (x1 <? 180)%float = true → Raster.np_interp2 180 (x0, x1) (y0, y1) = y1.
Proof. intros Hlt. unfold Raster.np_interp2. cbn [fst snd]. rewrite Hlt. reflexivity. Qed.

Example np_interp2_descending_example :
  Raster.np_interp2 180 (181, 179)%float (4, 8)%float = 8%float ∧
  Raster.np_interp2 180 (179, 181)%float (8, 4)%float = 6%float.
Proof. split; reflexivity. Qed.

(* ===================================================================== *)
(** * Facts about the rasterizer                                          *)
(* ===================================================================== *)

Section RasterizerFacts.
Import Raster.
Context `{Libs}.
Local Open Scope float_scope.

(** [np.linspace(0, 360, 20)]: nineteen multiples of [360 / 19], then 360. *)
Lemma np_linspace_0_360_20 :
  np_linspace 0 360 20
  = map (λ i, float_of_nat i * (360 / 19) + 0) (seq 0 19) ++ [360].
Proof. reflexivity. Qed.

Lemma footprint_ring_map (lat lng angle : float) :
  footprint_ring lat lng angle
  = map (λ bearing, geog_propagate1 (lng, lat) bearing (R_MEAN * angle * 1000))
        (np_linspace 0 360 20).
Proof. reflexivity. Qed.

(** The output printed by a computation that starts with a bind. *)
Lemma M_bind_snd {A B} (m : M A) (k : A → M B) :
  (m ≫= k).2 = match m.2 with
               | Ok a => (k a).2
               | Raise e => Raise e
               end.
Proof.
  destruct m as [out [a | e]]; cbn; [| reflexivity].
  destruct (k a) as [out' r]. reflexivity.
Qed.

(** Line 188 raising [ValueError] on a ring that needs no split: the
    handler prints, [mapping] stays unbound and line 209 raises. *)
Lemma get_cell_ids_h3_unbound (lat lng angle : float) :
  shapely_Polygon (footprint_ring lat lng angle) = Raise ValueError →
  needs_split (footprint_ring lat lng angle) = false →
  get_cell_ids_h3 lat lng angle
  = ([PrintLatLng lat lng; PrintPolygon (footprint_ring lat lng angle)],
     Raise UnboundLocalError).
Proof.
  intros Hpoly Hsplit. unfold get_cell_ids_h3.
  rewrite Hpoly, Hsplit. reflexivity.
Qed.

(** The fill of an unsplit ring raising: nothing catches it. *)
Lemma get_cell_ids_h3_fill_raises (lat lng angle : float) (m : ring) (e : exn) :
  shapely_Polygon (footprint_ring lat lng angle) = Ok m →
  needs_split (footprint_ring lat lng angle) = false →
  h3_polyfill m = Raise e →
  get_cell_ids_h3 lat lng angle = ([], Raise e).
Proof.
  intros Hpoly Hsplit Hfill. unfold get_cell_ids_h3.
  rewrite Hpoly, Hsplit. cbn. unfold lift. rewrite Hfill. reflexivity.
Qed.

(** On the split path every exception of the split and of the two fills is
    caught: the function returns a set. *)
Lemma get_cell_ids_h3_split_returns (lat lng angle : float) (m : ring) :
  shapely_Polygon (footprint_ring lat lng angle) = Ok m →
  needs_split (footprint_ring lat lng angle) = true →
  ∃ cells, (get_cell_ids_h3 lat lng angle).2 = Ok cells.
Proof.
  intros Hpoly Hsplit. unfold get_cell_ids_h3.
  rewrite Hpoly, Hsplit. cbn.
  destruct (split_antimeridian_polygon _) as [[first second] | e]; cbn;
    [| eexists; reflexivity].
  destruct (h3_polyfill first) as [filled1 | e1]; cbn; [| eexists; reflexivity].
  destruct (h3_polyfill second) as [filled2 | e2]; cbn; eexists; reflexivity.
Qed.

(** The second fill raising after the first one returned: the cells of the
    first ring stay in the result. *)
Lemma get_cell_ids_h3_second_fill_raises
    (lat lng angle : float) (m first second : ring) (filled1 : gset string) (e : exn) :
  shapely_Polygon (footprint_ring lat lng angle) = Ok m →
  needs_split (footprint_ring lat lng angle) = true →
  split_antimeridian_polygon (footprint_ring lat lng angle) = Ok (first, second) →
  h3_polyfill first = Ok filled1 →
  h3_polyfill second = Raise e →
  get_cell_ids_h3 lat lng angle = ([PrintLatLng lat lng], Ok (∅ ∪ filled1)).
Proof.
  intros Hpoly Hsplit Hrings Hfill1 Hfill2. unfold get_cell_ids_h3.
  cbv zeta. rewrite Hpoly, Hsplit, Hrings, Hfill1, Hfill2. reflexivity.
Qed.

(** C9, as the code has it: the ring the rasterizer builds has 20 vertices;
    vertex [i] is the centre [(lng, lat)] propagated by [R_MEAN * angle]
    kilometres, in metres, along the [i]-th of the 20 angles
    [0, 360/19, 2 * 360/19, ..., 360].  The first and the last vertex are
    the propagations along 0 and along 360 degrees; the code does not copy
    the first vertex to the end, and the ring is closed exactly when the
    library returns the same point for both angles. *)
Theorem footprint_ring_20_vertices (lat lng angle : float) :
  let d := R_MEAN * angle * 1000 in
  let polygon := footprint_ring lat lng angle in
  let angles := np_linspace 0 360 20 in
  length polygon = 20%nat ∧
  polygon = map (λ a, geog_propagate1 (lng, lat) a d) angles ∧
  angles = map (λ i, float_of_nat i * (360 / 19) + 0) (seq 0 19) ++ [360] ∧
  head angles = Some 0 ∧ last angles = Some 360 ∧
  head polygon = Some (geog_propagate1 (lng, lat) 0 d) ∧
  last polygon = Some (geog_propagate1 (lng, lat) 360 d) ∧
  (head polygon = last polygon
   ↔ geog_propagate1 (lng, lat) 0 d = geog_propagate1 (lng, lat) 360 d).
Proof.
  intros d polygon angles.
  assert (Hhead : head polygon = Some (geog_propagate1 (lng, lat) 0 d))
    by reflexivity.
  assert (Hlast : last polygon = Some (geog_propagate1 (lng, lat) 360 d))
    by reflexivity.
  split; [reflexivity |]. split; [reflexivity |]. split; [reflexivity |].
  split; [reflexivity |]. split; [reflexivity |].
  split; [exact Hhead |]. split; [exact Hlast |].
  rewrite Hhead, Hlast. split.
  - intros Heq. injection Heq as Heq. exact Heq.
  - intros ->. reflexivity.
Qed.

End RasterizerFacts.

(** C9 as stated fails: nothing in the rasterizer makes the last vertex
    equal to the first.  With a library that hands back the angle and the
    distance it is given, the first vertex of the ring for the sub-point
    (0, 179.5) and the cap angle 0.1056 carries the angle 0 and the last
    one the angle 360. *)
Lemma footprint_ring_first_differs_from_last :
  head (@Raster.footprint_ring Demo.probe_libs 0 179.5 0.1056)
  = Some (0%float, (Raster.R_MEAN * 0.1056 * 1000)%float) ∧
  last (@Raster.footprint_ring Demo.probe_libs 0 179.5 0.1056)
  = Some (360%float, (Raster.R_MEAN * 0.1056 * 1000)%float) ∧
  head (@Raster.footprint_ring Demo.probe_libs 0 179.5 0.1056)
  ≠ last (@Raster.footprint_ring Demo.probe_libs 0 179.5 0.1056).
Proof.
  assert (Hhead : head (@Raster.footprint_ring Demo.probe_libs 0 179.5 0.1056)
                  = Some (0%float, (Raster.R_MEAN * 0.1056 * 1000)%float))
    by reflexivity.
  assert (Hlast : last (@Raster.footprint_ring Demo.probe_libs 0 179.5 0.1056)
                  = Some (360%float, (Raster.R_MEAN * 0.1056 * 1000)%float))
    by reflexivity.
  split; [exact Hhead |]. split; [exact Hlast |].
  rewrite Hhead, Hlast. intros Heq.
  assert (Hangle : (0 : float) = 360%float)
    by exact (f_equal (λ v, match v with Some pt => pt.1 | None => 0%float end) Heq).
  revert Hangle. apply float_neq; reflexivity.
Qed.

(* ===================================================================== *)
(** * Facts about the accumulation loop                                   *)
(* ===================================================================== *)

Section AccumulateFacts.
Import Raster Coverage.
Local Open Scope Z_scope.

(** After [for cell in coverage_set: coverage[cell] += 1]. *)
Lemma accumulate_lookup (coverage : gmap string Z) (coverage_set : gset string)
    (cell : string) :
  accumulate coverage coverage_set !! cell
  = if decide (cell ∈ coverage_set) then Some (count coverage cell + 1)
    else coverage !! cell.
Proof.
  unfold accumulate.
  refine (set_fold_ind_L
            (λ (r : gmap string Z) (X : gset string),
               ∀ cell, r !! cell = if decide (cell ∈ X)
                                   then Some (count coverage cell + 1)
                                   else coverage !! cell)
            _ coverage _ _ coverage_set cell); clear cell.
  - intros cell. rewrite decide_False by set_solver. reflexivity.
  - intros x X r Hx IH cell. destruct (decide (cell = x)) as [-> | Hne].
    + rewrite lookup_insert_eq, decide_True by set_solver.
      rewrite IH, decide_False by exact Hx. reflexivity.
    + rewrite lookup_insert_ne by congruence. rewrite IH.
      destruct (decide (cell ∈ X)) as [Hin | Hout].
      * rewrite decide_True by set_solver. reflexivity.
      * rewrite decide_False by set_solver. reflexivity.
Qed.

Lemma accumulate_count (coverage : gmap string Z) (coverage_set : gset string)
    (cell : string) :
  count (accumulate coverage coverage_set) cell
  = count coverage cell + (if decide (cell ∈ coverage_set) then 1 else 0).
Proof.
  unfold count at 1. rewrite accumulate_lookup.
  destruct (decide (cell ∈ coverage_set)); cbn; [reflexivity |].
  unfold count. lia.
Qed.

(** The order in which the set is walked does not matter: any duplicate-free
    enumeration of the set gives the same histogram. *)
Lemma accumulate_any_order (coverage : gmap string Z) (coverage_set : gset string)
    (cells : list string) :
  NoDup cells → (∀ cell, cell ∈ cells ↔ cell ∈ coverage_set) →
  foldr (λ cell cov, <[cell := count cov cell + 1]> cov) coverage cells
  = accumulate coverage coverage_set.
Proof.
  intros Hnodup Hsame. apply map_eq. intros cell.
  rewrite accumulate_lookup.
  assert (Hfold : ∀ l, NoDup l →
            foldr (λ cell cov, <[cell := count cov cell + 1]> cov) coverage l !! cell
            = if decide (cell ∈ l) then Some (count coverage cell + 1)
              else coverage !! cell).
  { induction l as [| x l IH]; intros Hnd.
    - cbn. rewrite decide_False by set_solver. reflexivity.
    - apply NoDup_cons in Hnd as [Hx Hnd]. cbn [foldr].
      destruct (decide (cell = x)) as [-> | Hne].
      + rewrite lookup_insert_eq, decide_True by set_solver.
        unfold count at 1. rewrite (IH Hnd), decide_False by exact Hx.
        reflexivity.
      + rewrite lookup_insert_ne by congruence. rewrite (IH Hnd).
        destruct (decide (cell ∈ l)) as [Hin | Hout].
        * rewrite decide_True by set_solver. reflexivity.
        * rewrite decide_False by set_solver. reflexivity. }
  rewrite (Hfold cells Hnodup).
  destruct (decide (cell ∈ cells)) as [Hin | Hout].
  - rewrite decide_True by (apply Hsame, Hin). reflexivity.
  - rewrite decide_False by (intros Hc; apply Hout, Hsame, Hc). reflexivity.
Qed.

(** [for cell in cells: coverage_set.add(cell)] is the union. *)
Lemma add_cells_fold (cells coverage_set : gset string) :
  set_fold (λ cell acc, {[cell]} ∪ acc) coverage_set cells = cells ∪ coverage_set.
Proof.
  refine (set_fold_ind_L (λ (r X : gset string), r = X ∪ coverage_set)
            _ coverage_set _ _ cells).
  - set_solver.
  - intros x X r _ ->. set_solver.
Qed.

(** Lines 286-289 print nothing and raise nothing, whatever [cells] is. *)
Lemma add_cells_value (cells coverage_set : gset string) :
  add_cells cells coverage_set = ([], Ok (cells ∪ coverage_set)).
Proof.
  unfold add_cells. rewrite add_cells_fold.
  destruct (bool_decide (size cells = 0%nat)); reflexivity.
Qed.

Lemma merge_lookup (h1 h2 : gmap string Z) (cell : string) :
  count (merge h1 h2) cell = count h1 cell + count h2 cell.
Proof.
  unfold count, merge. rewrite lookup_union_with.
  destruct (h1 !! cell), (h2 !! cell); cbn; lia.
Qed.

Lemma merge_empty_r (h : gmap string Z) : merge h ∅ = h.
Proof.
  apply map_eq. intros cell. unfold merge.
  rewrite lookup_union_with, lookup_empty. destruct (h !! cell); reflexivity.
Qed.

Lemma merge_comm (h1 h2 : gmap string Z) : merge h1 h2 = merge h2 h1.
Proof.
  apply map_eq. intros cell. unfold merge. rewrite !lookup_union_with.
  destruct (h1 !! cell), (h2 !! cell); cbn; f_equal; lia.
Qed.

Lemma merge_assoc (h1 h2 h3 : gmap string Z) :
  merge h1 (merge h2 h3) = merge (merge h1 h2) h3.
Proof.
  apply map_eq. intros cell. unfold merge. rewrite !lookup_union_with.
  destruct (h1 !! cell), (h2 !! cell), (h3 !! cell); cbn; f_equal; lia.
Qed.

(** Counting a step on top of a merged histogram, or merging afterwards. *)
Lemma accumulate_merge (h coverage : gmap string Z) (coverage_set : gset string) :
  accumulate (merge h coverage) coverage_set
  = merge h (accumulate coverage coverage_set).
Proof.
  apply map_eq. intros cell. unfold merge at 2.
  rewrite lookup_union_with, !accumulate_lookup.
  destruct (decide (cell ∈ coverage_set)).
  - rewrite merge_lookup. unfold count.
    destruct (h !! cell); cbn; f_equal; lia.
  - unfold merge. rewrite lookup_union_with. reflexivity.
Qed.

End AccumulateFacts.

Section LoopFacts.
Import Raster Coverage.
Context `{Libs} `{World}.
Local Open Scope Z_scope.

(** The outcome of lines 283-289 for one satellite. *)
Lemma sat_cells_snd (sat : Subpoint) (coverage_set : gset string) :
  (sat_cells sat coverage_set).2
  = (cells ← (sat_footprint sat).2; Ok (cells ∪ coverage_set)).
Proof.
  unfold sat_cells. rewrite M_bind_snd.
  destruct (sat_footprint sat).2 as [cells | e]; [| reflexivity].
  rewrite add_cells_value. reflexivity.
Qed.

(** The set built by the inner loop is the union of the satellites' sets,
    however many of them contain a cell. *)
Lemma sats_loop_union (items : list (string * Subpoint)) (start result : gset string) :
  (sats_loop items start).2 = Ok result →
  ∀ cell, cell ∈ result ↔
          cell ∈ start ∨
          ∃ item cells, In item items ∧
                        (sat_footprint item.2).2 = Ok cells ∧ cell ∈ cells.
Proof.
  revert start. induction items as [| [sat_name sat] rest IH]; intros start Hloop cell.
  - cbn in Hloop. injection Hloop as <-. split; [auto |].
    intros [Hin | (item & cells & [] & _)]. exact Hin.
  - cbn [sats_loop] in Hloop. rewrite M_bind_snd, sat_cells_snd in Hloop.
    destruct (sat_footprint sat).2 as [cells | e] eqn:Hfoot; [| discriminate Hloop].
    cbn in Hloop. rewrite (IH _ Hloop cell), elem_of_union. split.
    + intros [[Hin | Hin] | (item & cells' & Hitem & Hfp & Hin)].
      * right. exists (sat_name, sat), cells. repeat split; [left | |]; done.
      * left. exact Hin.
      * right. exists item, cells'. repeat split; [right | |]; done.
    + intros [Hin | (item & cells' & [<- | Hitem] & Hfp & Hin)].
      * left. right. exact Hin.
      * change (sat_footprint sat).2 with (sat_footprint (sat_name, sat).2).2 in Hfoot.
        rewrite Hfoot in Hfp. injection Hfp as <-.
        left. left. exact Hin.
      * right. exists item, cells'. repeat split; done.
Qed.

(** An exception of one satellite's footprint ends the inner loop. *)
Lemma sats_loop_raises (before after : list (string * Subpoint))
    (sat_name : string) (sat : Subpoint) (start : gset string) (e : exn) :
  (∀ item, In item before → ∃ cells, (sat_footprint item.2).2 = Ok cells) →
  (sat_footprint sat).2 = Raise e →
  (sats_loop (before ++ (sat_name, sat) :: after) start).2 = Raise e.
Proof.
  revert start. induction before as [| [n s] before IH]; intros start Hok Hraise.
  - cbn [app sats_loop]. rewrite M_bind_snd, sat_cells_snd, Hraise. reflexivity.
  - cbn [app sats_loop]. rewrite M_bind_snd, sat_cells_snd.
    destruct (Hok (n, s) (or_introl eq_refl)) as [cells Hcells].
    change (sat_footprint (n, s).2).2 with (sat_footprint s).2 in Hcells.
    rewrite Hcells. cbn [mbind res_mbind res_bind].
    apply IH; [| exact Hraise].
    intros item Hitem. apply Hok. right. exact Hitem.
Qed.

(** One iteration of the outer loop. *)
Lemma step_snd (START_TIME : Z) (i : nat) (coverage : gmap string Z) :
  (step START_TIME i coverage).2
  = (coverage_set ← (step_cells (START_TIME + Z.of_nat i)).2;
     Ok (accumulate coverage coverage_set)).
Proof.
  unfold step. cbv zeta. rewrite M_bind_snd.
  destruct (i mod 30 =? 0)%nat; cbn [print mret M_mret snd];
    rewrite M_bind_snd; destruct (step_cells _).2; reflexivity.
Qed.

(** The outer loop visits the minutes [START_TIME + i]. *)
Lemma steps_loop_run_times (START_TIME : Z) (indices : list nat)
    (coverage : gmap string Z) :
  (steps_loop START_TIME indices coverage).2
  = run_times (map (λ i, START_TIME + Z.of_nat i) indices) coverage.
Proof.
  revert coverage. induction indices as [| i rest IH]; intros coverage.
  - reflexivity.
  - cbn [steps_loop map run_times]. rewrite M_bind_snd, step_snd.
    destruct (step_cells _).2 as [coverage_set | e]; [| reflexivity].
    cbn. apply IH.
Qed.

Lemma simulate_run_times (time_per_process : nat) (process : Z) :
  (simulate time_per_process process).2
  = run_times (map (λ i, process * Z.of_nat time_per_process + Z.of_nat i)
                   (seq 0 time_per_process)) ∅.
Proof. unfold simulate. apply steps_loop_run_times. Qed.

Lemma main_run_times (process : Z) :
  (main process).2 = run_times (partition_steps process) ∅.
Proof. unfold main. rewrite simulate_run_times. reflexivity. Qed.

Lemma run_times_app (times1 times2 : list Z) (coverage : gmap string Z) :
  run_times (times1 ++ times2) coverage
  = (coverage' ← run_times times1 coverage; run_times times2 coverage').
Proof.
  revert coverage. induction times1 as [| time rest IH]; intros coverage.
  - reflexivity.
  - cbn [app run_times].
    destruct (step_cells time).2 as [coverage_set | e]; [| reflexivity].
    cbn. apply IH.
Qed.

(** Starting from a histogram [h], or merging [h] in at the end. *)
Lemma run_times_merge (times : list Z) (h coverage : gmap string Z) :
  run_times times (merge h coverage)
  = (coverage' ← run_times times coverage; Ok (merge h coverage')).
Proof.
  revert coverage. induction times as [| time rest IH]; intros coverage.
  - reflexivity.
  - cbn [run_times].
    destruct (step_cells time).2 as [coverage_set | e]; [| reflexivity].
    cbn. rewrite accumulate_merge. apply IH.
Qed.

(** Two runs merged are the one run over both lists of minutes. *)
Lemma run_times_app_merge (times1 times2 : list Z) :
  run_times (times1 ++ times2) ∅
  = merge_res (run_times times1 ∅) (run_times times2 ∅).
Proof.
  rewrite run_times_app. unfold merge_res.
  destruct (run_times times1 ∅) as [h1 | e]; [| reflexivity].
  cbn. rewrite <- (merge_empty_r h1) at 1. rewrite run_times_merge.
  reflexivity.
Qed.

(** A cell's count grows by at most one per minute visited, and by exactly
    one per minute in which some satellite covers it. *)
Lemma run_times_count (times : list Z) (coverage result : gmap string Z)
    (cell : string) :
  run_times times coverage = Ok result →
  count coverage cell <= count result cell
                      <= count coverage cell + Z.of_nat (length times) ∧
  ((∀ time, In time times →
      ∃ coverage_set, (step_cells time).2 = Ok coverage_set ∧ cell ∈ coverage_set) →
   count result cell = count coverage cell + Z.of_nat (length times)).
Proof.
  revert coverage. induction times as [| time rest IH]; intros coverage Hrun.
  - cbn in Hrun. injection Hrun as <-. cbn. split; [lia |]. intros _. lia.
  - cbn [run_times] in Hrun.
    destruct (step_cells time).2 as [coverage_set | e] eqn:Hcells;
      [| discriminate Hrun].
    cbn in Hrun. destruct (IH _ Hrun) as [Hbound Hexact].
    rewrite accumulate_count in Hbound, Hexact.
    cbn [length]. rewrite Nat2Z.inj_succ. split.
    + destruct (decide (cell ∈ coverage_set)); lia.
    + intros Hcov.
      destruct (Hcov time (or_introl eq_refl)) as (cs & Hcs & Hin).
      rewrite Hcells in Hcs. injection Hcs as <-.
      rewrite decide_True in Hexact by exact Hin.
      rewrite Hexact; [lia |].
      intros t Ht. apply Hcov. right. exact Ht.
Qed.

End LoopFacts.

Section PartitionFacts.
Import Raster Coverage.
Local Open Scope Z_scope.

Lemma TIME_PER_PROCESS_360 : TIME_PER_PROCESS = 360%nat.
Proof. reflexivity. Qed.

(** Partition [process] visits the minutes of a half-open range. *)
Lemma partition_steps_range (process time : Z) :
  In time (partition_steps process)
  ↔ process * 360 <= time < (process + 1) * 360.
Proof.
  unfold partition_steps. rewrite in_map_iff, TIME_PER_PROCESS_360.
  change (Z.of_nat 360) with 360. split.
  - intros (i & <- & Hi). apply in_seq in Hi. lia.
  - intros Hrange. exists (Z.to_nat (time - process * 360)). split; [lia |].
    apply in_seq. lia.
Qed.

Lemma partition_steps_disjoint (p q time : Z) :
  p ≠ q → In time (partition_steps p) → ¬ In time (partition_steps q).
Proof. rewrite !partition_steps_range. intros Hne Hp Hq. nia. Qed.

Lemma partition_steps_length (process : Z) :
  length (partition_steps process) = 360%nat.
Proof. unfold partition_steps. rewrite length_map, length_seq. reflexivity. Qed.

(** The four partitions, one after the other, are the minutes 0 to 1439,
    each once. *)
Lemma partitions_cover_window :
  partition_steps 0 ++ partition_steps 1 ++ partition_steps 2 ++ partition_steps 3
  = map Z.of_nat (seq 0 1440).
Proof. vm_compute. reflexivity. Qed.

Lemma map_seq_from_0 (f : nat → Z) (a n : nat) :
  map f (seq a n) = map (λ i, f (a + i)%nat) (seq 0 n).
Proof.
  revert f a. induction n as [| n IH]; intros f a; [reflexivity |].
  cbn [seq map]. f_equal; [f_equal; lia |].
  rewrite (IH f (S a)), (IH (λ i, f (a + i)%nat) 1%nat).
  apply map_ext. intros i. f_equal. lia.
Qed.

(** Two consecutive partitions are one range of 720 minutes. *)
Lemma partition_steps_consecutive (process : Z) :
  map (λ i, process * 360 + Z.of_nat i) (seq 0 720)
  = partition_steps process ++ partition_steps (process + 1).
Proof.
  unfold partition_steps. rewrite TIME_PER_PROCESS_360.
  change 720%nat with (360 + 360)%nat. rewrite seq_app, map_app. f_equal.
  rewrite map_seq_from_0. apply map_ext. intros i. lia.
Qed.

End PartitionFacts.

(* ===================================================================== *)
(** * The claims about the accumulation loop                              *)
(* ===================================================================== *)

Section LoopClaims.
Import Raster Coverage.
Context `{Libs} `{World}.
Local Open Scope Z_scope.

(** C1: accumulating a step's cell set adds exactly 1 to the count of each
    of its cells, a cell without an entry counting as 0, and leaves the
    other counts alone.  The step's set is the union of the satellites'
    sets, so a step raises a count by at most 1 however many satellites
    cover the cell, and a cell covered at every step of an [N]-step run
    that completes ends with count exactly [N]. *)
Theorem coverage_counts_once_per_step :
  (∀ (coverage : gmap string Z) (coverage_set : gset string) (cell : string),
     count (accumulate coverage coverage_set) cell
     = count coverage cell + (if decide (cell ∈ coverage_set) then 1 else 0)) ∧
  (∀ (time : Z) (coverage_set : gset string),
     (step_cells time).2 = Ok coverage_set →
     ∀ cell, cell ∈ coverage_set ↔
             ∃ item cells, In item (subpoints time) ∧
                           (sat_footprint item.2).2 = Ok cells ∧ cell ∈ cells) ∧
  (∀ (START_TIME : Z) (i : nat) (coverage coverage' : gmap string Z),
     (step START_TIME i coverage).2 = Ok coverage' →
     ∀ cell, count coverage cell <= count coverage' cell <= count coverage cell + 1) ∧
  (∀ (N : nat) (process : Z) (coverage : gmap string Z) (cell : string),
     (simulate N process).2 = Ok coverage →
     (∀ i : nat, (i < N)%nat →
        ∃ coverage_set,
          (step_cells (process * Z.of_nat N + Z.of_nat i)).2 = Ok coverage_set ∧
          cell ∈ coverage_set) →
     count coverage cell = Z.of_nat N).
Proof.
  split; [| split; [| split]].
  - apply accumulate_count.
  - intros time coverage_set Hcells cell.
    rewrite (sats_loop_union _ _ _ Hcells cell). split.
    + intros [Hin | Hex]; [set_solver | exact Hex].
    + intros Hex. right. exact Hex.
  - intros START_TIME i coverage coverage' Hstep cell.
    rewrite step_snd in Hstep.
    destruct (step_cells _).2 as [coverage_set | e]; [| discriminate Hstep].
    cbn in Hstep. injection Hstep as <-. rewrite accumulate_count.
    destruct (decide (cell ∈ coverage_set)); lia.
  - intros N process coverage cell Hrun Hcovered.
    rewrite simulate_run_times in Hrun.
    destruct (run_times_count _ _ _ cell Hrun) as [_ Hexact].
    rewrite Hexact.
    + rewrite length_map, length_seq. unfold count. rewrite lookup_empty. cbn. lia.
    + intros time Htime. apply in_map_iff in Htime as (i & <- & Hi).
      apply in_seq in Hi. apply Hcovered. lia.
Qed.

(** C4: partition [p] visits exactly the minutes [p * 360 <= t < (p + 1) * 360];
    different partitions share no minute and the four of them make up the
    minutes 0 to 1439, each once.  The histogram of the run over the whole
    window is the cell-by-cell sum of the four partitions' histograms (and
    raises when one of them raises); the same holds for two consecutive
    partitions and the 720 minutes they span, and for the minutes of any
    two partitions visited in one run. *)
Theorem partitions_sum_to_full_window :
  (∀ p t : Z, In t (partition_steps p) ↔ p * 360 <= t < (p + 1) * 360) ∧
  (∀ p q t : Z, p ≠ q → In t (partition_steps p) → ¬ In t (partition_steps q)) ∧
  partition_steps 0 ++ partition_steps 1 ++ partition_steps 2 ++ partition_steps 3
  = map Z.of_nat (seq 0 1440) ∧
  (∀ p : Z, (main p).2 = run_times (partition_steps p) ∅) ∧
  (simulate 1440 0).2
  = merge_res (main 0).2 (merge_res (main 1).2 (merge_res (main 2).2 (main 3).2)) ∧
  (∀ p : Z, (steps_loop (p * 360) (seq 0 720) ∅).2
            = merge_res (main p).2 (main (p + 1)).2) ∧
  (∀ p q : Z, run_times (partition_steps p ++ partition_steps q) ∅
              = merge_res (main p).2 (main q).2).
Proof.
  repeat apply conj.
  - apply partition_steps_range.
  - apply partition_steps_disjoint.
  - apply partitions_cover_window.
  - apply main_run_times.
  - rewrite simulate_run_times, !main_run_times.
    replace (map (λ i : nat, 0 * Z.of_nat 1440 + Z.of_nat i) (seq 0 1440))
      with (partition_steps 0 ++ partition_steps 1 ++ partition_steps 2
              ++ partition_steps 3) by (vm_compute; reflexivity).
    rewrite !run_times_app_merge. reflexivity.
  - intros p. rewrite steps_loop_run_times, partition_steps_consecutive.
    rewrite run_times_app_merge, !main_run_times. reflexivity.
  - intros p q. rewrite run_times_app_merge, !main_run_times. reflexivity.
Qed.

End LoopClaims.

(** C8 as the code has it: for a satellite whose rasterization returned the
    empty set, lines 286-289 print nothing, raise nothing and leave the
    step's set as it was: [Exception("empty region returned")] is built and
    dropped.  On an input: the footprint of a satellite over the pole falls
    outside the grid, the rasterizer returns the empty set without
    printing, and the loop body goes on as if the satellite were absent. *)
Theorem empty_footprint_is_silent :
  (∀ coverage_set : gset string,
     Coverage.add_cells ∅ coverage_set = ([], Ok coverage_set)) ∧
  @Coverage.sat_footprint Demo.demo_libs Demo.demo_world
    (Coverage.subpoint_at Demo.sat_polar 0) = ([], Ok ∅) ∧
  (∀ coverage_set : gset string,
     @Coverage.sat_cells Demo.demo_libs Demo.demo_world
       (Coverage.subpoint_at Demo.sat_polar 0) coverage_set
     = ([], Ok coverage_set)).
Proof.
  assert (Hadd : ∀ coverage_set : gset string,
            Coverage.add_cells ∅ coverage_set = ([], Ok coverage_set)).
  { intros coverage_set. rewrite add_cells_value. repeat f_equal. set_solver. }
  assert (Hfoot : @Coverage.sat_footprint Demo.demo_libs Demo.demo_world
                    (Coverage.subpoint_at Demo.sat_polar 0) = ([], Ok ∅))
    by (vm_compute; reflexivity).
  split; [exact Hadd |]. split; [exact Hfoot |].
  intros coverage_set. unfold Coverage.sat_cells. rewrite Hfoot.
  cbn [mbind Raster.M_mbind Raster.M_bind]. rewrite Hadd. reflexivity.
Qed.

Lemma coverage_counts_once_per_step_witness :
  (@Coverage.simulate Demo.demo_libs Demo.demo_world 3 0).2
  = Ok ({[ "east" := 3%Z; "west" := 3%Z ]} : gmap string Z) ∧
  Coverage.count ({[ "east" := 3%Z; "west" := 3%Z ]} : gmap string Z) "east" = 3%Z.
Proof.
  split; [vm_compute; reflexivity |].
  destruct (@coverage_counts_once_per_step Demo.demo_libs Demo.demo_world)
    as (_ & _ & _ & Hrun).
  apply (Hrun 3%nat 0%Z); [vm_compute; reflexivity |].
  intros i Hi.
  exists ({[ "east"; "west" ]} : gset string).
  destruct i as [| [| [| i]]]; [| | | lia];
    (split; [vm_compute; reflexivity | set_solver]).
Defined.

Lemma partitions_sum_to_full_window_witness :
  (1 ≠ 2)%Z ∧
  In 400%Z (Coverage.partition_steps 1) ∧ ¬ In 400%Z (Coverage.partition_steps 2).
Proof.
  destruct (@partitions_sum_to_full_window Demo.demo_libs Demo.demo_world)
    as (Hrange & Hdisj & _).
  assert (Hin : In 400%Z (Coverage.partition_steps 1)) by (apply Hrange; lia).
  split; [lia |]. split; [exact Hin |].
  apply (Hdisj 1%Z 2%Z 400%Z); [lia | exact Hin].
Defined.

(* ===================================================================== *)
(** * The area of the cap                                                 *)
(* ===================================================================== *)

Section CapArea.
Import Geometry.
Local Open Scope R_scope.

(** The area of a cap of half-angle [a] on the sphere of radius [R_MEAN]. *)
Lemma calcAreaSpherical_of_angle (h e : R) :
  calcAreaSpherical h e
  = (a ← calcCapAngle h e; Ok (2 * PI * R_MEAN ^ 2 * (1 - cos a))).
Proof.
  unfold calcAreaSpherical, calcCapAngle.
  destruct (float_div _ _) as [q | err]; [| reflexivity]. cbn.
  destruct (math_asin q) as [eta | err]; reflexivity.
Qed.

(** X4: [calcAreaSpherical] ends as [calcCapAngle] does on the same
    arguments: it raises the same exception, or returns the area
    [2 * PI * R_MEAN^2 * (1 - cos a)] of the cap whose half-angle [a]
    [calcCapAngle] returns. *)
Theorem calcAreaSpherical_agrees_with_calcCapAngle (h e : R) :
  (∀ err, calcAreaSpherical h e = Raise err ↔ calcCapAngle h e = Raise err) ∧
  (∀ a, calcCapAngle h e = Ok a →
        calcAreaSpherical h e = Ok (2 * PI * R_MEAN ^ 2 * (1 - cos a))).
Proof.
  rewrite calcAreaSpherical_of_angle.
  destruct (calcCapAngle h e) as [a | err0]; cbn; split.
  - intros err. split; discriminate.
  - intros a' Ha. injection Ha as <-. reflexivity.
  - intros err. reflexivity.
  - intros a Ha. discriminate Ha.
Qed.

End CapArea.

(* ===================================================================== *)
(** * The filter on operational satellites                                *)
(* ===================================================================== *)

Section FilterFacts.
Import Geometry.
Local Open Scope R_scope.
Context {A : Type} (model : A → Satrec).

(** With a nonzero mean motion both divisions go through, and converting the
    mean motion to revolutions per day and back cancels out. *)
Lemma perigee_of_value (m : Satrec) :
  no_kozai m ≠ 0 →
  perigee_of m = Ok (semi_major_axis m * (1 - ecco m) - 6378135 / 1000).
Proof.
  intros Hnz. pose proof PI_RGT_0 as Hpi.
  assert (Hrate : no_kozai m / (2 * PI) * 1440 * 2 * PI / (24 * 3600)
                  = no_kozai m / 60) by (field; lra).
  unfold perigee_of, float_div. rewrite Hrate.
  destruct (Req_dec_T (no_kozai m / (2 * PI) * 1440) 0) as [Hz | _].
  { exfalso. apply Hnz.
    replace (no_kozai m) with (no_kozai m / (2 * PI) * 1440 * (2 * PI / 1440))
      by (field; lra).
    rewrite Hz. ring. }
  cbn [mbind res_mbind res_bind].
  destruct (Req_dec_T ((no_kozai m / 60) ^ 2) 0) as [Hz | _].
  { exfalso. revert Hz. apply pow_nonzero. lra. }
  cbn [mbind res_mbind res_bind]. unfold semi_major_axis.
  replace (3986004418 / 10000 / (no_kozai m / 60) ^ 2)
    with (3986004418 / 10000 * 3600 / no_kozai m ^ 2) by (field; lra).
  reflexivity.
Qed.

Lemma perigee_of_zero (m : Satrec) :
  no_kozai m = 0 → perigee_of m = Raise ZeroDivisionError.
Proof.
  intros Hz. unfold perigee_of, float_div. rewrite Hz.
  destruct (Req_dec_T (0 / (2 * PI) * 1440) 0) as [_ | Hne]; [reflexivity |].
  exfalso. apply Hne. unfold Rdiv. ring.
Qed.

Lemma perigee_test (m : Satrec) :
  (if Rlt_dec 540 (semi_major_axis m * (1 - ecco m) - 6378135 / 1000)
   then true else false) = operational m.
Proof. reflexivity. Qed.

(** The loop either meets a zero mean motion and raises, or appends to
    [op_sats] the satellites that pass the test, in their order. *)
Lemma filter_sats_loop_spec (sats op_sats : list A) :
  (Forall (λ sat, no_kozai (model sat) ≠ 0) sats ∧
   filter_sats_loop model sats op_sats
   = Ok (op_sats ++ List.filter (λ sat, operational (model sat)) sats)) ∨
  (Exists (λ sat, no_kozai (model sat) = 0) sats ∧
   filter_sats_loop model sats op_sats = Raise ZeroDivisionError).
Proof.
  revert op_sats. induction sats as [| sat rest IH]; intros op_sats.
  - left. split; [constructor |]. cbn. rewrite app_nil_r. reflexivity.
  - cbn [filter_sats_loop List.filter].
    destruct (Req_dec_T (no_kozai (model sat)) 0) as [Hz | Hnz].
    + right. split; [left; exact Hz |]. rewrite (perigee_of_zero _ Hz). reflexivity.
    + rewrite (perigee_of_value _ Hnz). cbn [mbind res_mbind res_bind].
      rewrite <- perigee_test.
      destruct (Rlt_dec 540 _) as [Hkeep | Hdrop].
      * destruct (IH (op_sats ++ [sat])) as [[Hall ->] | [Hex ->]].
        -- left. split; [constructor; assumption |].
           rewrite <- app_assoc. reflexivity.
        -- right. split; [right; exact Hex | reflexivity].
      * destruct (IH op_sats) as [[Hall ->] | [Hex ->]].
        -- left. split; [constructor; assumption | reflexivity].
        -- right. split; [right; exact Hex | reflexivity].
Qed.

Lemma Forall_not_Exists_zero (sats : list A) :
  Forall (λ sat, no_kozai (model sat) ≠ 0) sats →
  ¬ Exists (λ sat, no_kozai (model sat) = 0) sats.
Proof.
  intros Hall Hex. apply Exists_exists in Hex as (sat & Hin & Hz).
  rewrite Forall_forall in Hall. exact (Hall sat Hin Hz).
Qed.

Lemma filter_sublist (keep : A → bool) (sats : list A) :
  sublist (List.filter keep sats) sats.
Proof.
  induction sats as [| sat rest IH]; [constructor |].
  cbn. destruct (keep sat); constructor; exact IH.
Qed.

Lemma filter_filter_same (keep : A → bool) (sats : list A) :
  List.filter keep (List.filter keep sats) = List.filter keep sats.
Proof.
  induction sats as [| sat rest IH]; [reflexivity |].
  cbn. destruct (keep sat) eqn:Hk; cbn; rewrite ?Hk, IH; reflexivity.
Qed.

(** Every satellite's perigee being computed, the loop appends to
    [op_sats] the satellites that pass the test, in their order. *)
Lemma filter_sats_loop_returns (sats op_sats : list A) :
  Forall (λ sat, ∃ p, perigee_of (model sat) = Ok p) sats →
  filter_sats_loop model sats op_sats
  = Ok (op_sats ++ List.filter (λ sat, passes_perigee_test (model sat)) sats).
Proof.
  revert op_sats. induction sats as [| sat rest IH]; intros op_sats Hall.
  - cbn. rewrite app_nil_r. reflexivity.
  - inversion Hall as [| ? ? [p Hp] Hrest]; subst.
    cbn [filter_sats_loop List.filter]. unfold passes_perigee_test at 1.
    rewrite Hp. cbn [mbind res_mbind res_bind].
    destruct (Rlt_dec 540 p) as [Hkeep | Hdrop].
    + rewrite (IH _ Hrest), <- app_assoc. reflexivity.
    + apply IH, Hrest.
Qed.

(** The first satellite whose perigee computation raises ends the loop
    with its exception. *)
Lemma filter_sats_loop_raises (before after : list A) (sat : A) (err : exn)
    (op_sats : list A) :
  Forall (λ s, ∃ p, perigee_of (model s) = Ok p) before →
  perigee_of (model sat) = Raise err →
  filter_sats_loop model (before ++ sat :: after) op_sats = Raise err.
Proof.
  intros Hbefore Hsat. revert op_sats.
  induction Hbefore as [| s before' [p Hp] _ IH]; intros op_sats.
  - cbn. rewrite Hsat. reflexivity.
  - cbn [app filter_sats_loop]. rewrite Hp. cbn [mbind res_mbind res_bind].
    destruct (Rlt_dec 540 p); apply IH.
Qed.

(** Either every perigee is computed, or there is a first satellite whose
    computation raises. *)
Lemma first_failing_perigee (sats : list A) :
  Forall (λ sat, ∃ p, perigee_of (model sat) = Ok p) sats ∨
  ∃ before sat after err,
    sats = before ++ sat :: after ∧
    Forall (λ s, ∃ p, perigee_of (model s) = Ok p) before ∧
    perigee_of (model sat) = Raise err.
Proof.
  induction sats as [| sat rest IH]; [left; constructor |].
  destruct (perigee_of (model sat)) as [p | err] eqn:Hp.
  - destruct IH as [Hall | (before & sat' & after & err & -> & Hbefore & Hsat)].
    + left. constructor; [exists p; exact Hp | exact Hall].
    + right. exists (sat :: before), sat', after, err.
      split; [reflexivity |]. split; [| exact Hsat].
      constructor; [exists p; exact Hp | exact Hbefore].
  - right. exists [], sat, rest, err.
    split; [reflexivity |]. split; [constructor | exact Hp].
Qed.

(** X7: [filter_sats] returns exactly when the perigee of every satellite
    is computed, and then returns, in their order, the satellites whose
    computed perigee exceeds 540; it raises exactly what the perigee
    computation of the first failing satellite raises. *)
Theorem filter_sats_outcome (sats : list A) :
  (∀ kept, filter_sats model sats = Ok kept
           ↔ Forall (λ sat, ∃ p, perigee_of (model sat) = Ok p) sats ∧
             kept = List.filter (λ sat, passes_perigee_test (model sat)) sats) ∧
  (∀ err, filter_sats model sats = Raise err
          ↔ ∃ before sat after,
              sats = before ++ sat :: after ∧
              Forall (λ s, ∃ p, perigee_of (model s) = Ok p) before ∧
              perigee_of (model sat) = Raise err).
Proof.
  unfold filter_sats.
  destruct (first_failing_perigee sats)
    as [Hall | (before & sat & after & err0 & -> & Hbefore & Hsat)].
  - rewrite (filter_sats_loop_returns _ _ Hall). cbn [app]. split.
    + intros kept. split.
      * intros Hkept. injection Hkept as <-. split; [exact Hall | reflexivity].
      * intros [_ ->]. reflexivity.
    + intros err. split; [discriminate |].
      intros (before & sat & after & -> & _ & Hsat).
      apply Forall_app in Hall as [_ Hall].
      inversion Hall as [| ? ? [p Hp] _]; subst.
      rewrite Hp in Hsat. discriminate Hsat.
  - pose proof (filter_sats_loop_raises _ after _ _ [] Hbefore Hsat) as Hrun.
    split.
    + intros kept. rewrite Hrun. split; [discriminate |].
      intros [Hall _]. apply Forall_app in Hall as [_ Hall].
      inversion Hall as [| ? ? [p Hp] _]; subst.
      rewrite Hp in Hsat. discriminate Hsat.
    + intros err. split.
      * rewrite Hrun. intros Herr. injection Herr as <-.
        exists before, sat, after.
        split; [reflexivity |]. split; [exact Hbefore | exact Hsat].
      * intros (before' & sat' & after' & Heq & Hbefore' & Hsat').
        rewrite Heq.
        apply (filter_sats_loop_raises _ _ _ _ _ Hbefore' Hsat').
Qed.

(** X9: filtering a filtered list changes nothing. *)
Theorem filter_sats_idempotent (sats kept : list A) :
  filter_sats model sats = Ok kept → filter_sats model kept = Ok kept.
Proof.
  intros Hkept. unfold filter_sats in *.
  destruct (filter_sats_loop_spec sats []) as [[Hall Hrun] | [_ Hrun]];
    rewrite Hrun in Hkept; [| discriminate Hkept].
  injection Hkept as <-. cbn [app].
  destruct (filter_sats_loop_spec
              (List.filter (λ sat, operational (model sat)) sats) [])
    as [[_ ->] | [Hex _]].
  - cbn [app]. f_equal. apply filter_filter_same.
  - exfalso. apply Exists_exists in Hex as (sat & Hin & Hz).
    apply list_elem_of_In, filter_In in Hin as [Hin _].
    apply list_elem_of_In in Hin.
    rewrite Forall_forall in Hall. exact (Hall sat Hin Hz).
Qed.

End FilterFacts.

(** What [filter_sats] returns when every mean motion is nonzero. *)
Lemma filter_sats_value {A : Type} (model : A → Geometry.Satrec) (sats : list A) :
  Forall (λ sat, Geometry.no_kozai (model sat) ≠ 0%R) sats →
  Geometry.filter_sats model sats
  = Ok (List.filter (λ sat, Geometry.operational (model sat)) sats).
Proof.
  intros Hall. unfold Geometry.filter_sats.
  destruct (filter_sats_loop_spec model sats []) as [[_ ->] | [Hex _]]; [reflexivity |].
  destruct (Forall_not_Exists_zero model sats Hall Hex).
Qed.

Lemma filter_sats_outcome_witness :
  let good := {| Geometry.no_kozai := (1 / 16)%R; Geometry.ecco := 0%R |} in
  let bad := {| Geometry.no_kozai := 0%R; Geometry.ecco := 0%R |} in
  Geometry.perigee_of bad = Raise ZeroDivisionError ∧
  Geometry.filter_sats (@Datatypes.id Geometry.Satrec) [good; bad]
  = Raise ZeroDivisionError.
Proof.
  intros good bad.
  assert (Hbad : Geometry.perigee_of bad = Raise ZeroDivisionError)
    by (apply perigee_of_zero; reflexivity).
  split; [exact Hbad |].
  apply (proj2 (filter_sats_outcome (@Datatypes.id Geometry.Satrec) [good; bad])
               ZeroDivisionError).
  exists [good], bad, []. split; [reflexivity |]. split; [| exact Hbad].
  constructor; [| constructor].
  eexists. apply perigee_of_value. cbn. lra.
Defined.

Lemma filter_sats_idempotent_witness :
  let sat := {| Geometry.no_kozai := (1 / 16)%R; Geometry.ecco := 0%R |} in
  Geometry.filter_sats (@Datatypes.id Geometry.Satrec) [sat] = Ok (List.filter Geometry.operational [sat]) ∧
  Geometry.filter_sats (@Datatypes.id Geometry.Satrec) (List.filter Geometry.operational [sat])
  = Ok (List.filter Geometry.operational [sat]).
Proof.
  intros sat.
  assert (Hrun : Geometry.filter_sats (@Datatypes.id Geometry.Satrec) [sat]
                 = Ok (List.filter Geometry.operational [sat])).
  { apply (filter_sats_value (@Datatypes.id Geometry.Satrec) [sat]). constructor; [cbn; lra | constructor]. }
  split; [exact Hrun |].
  exact (filter_sats_idempotent (@Datatypes.id Geometry.Satrec) [sat] _ Hrun).
Defined.

Lemma calcAreaSpherical_agrees_with_calcCapAngle_witness :
  Geometry.calcCapAngle 0 90 = Ok 0%R ∧
  Geometry.calcAreaSpherical 0 90
  = Ok (2 * PI * Geometry.R_MEAN ^ 2 * (1 - cos 0))%R.
Proof.
  split; [exact calcCapAngle_degenerate |].
  exact (proj2 (calcAreaSpherical_agrees_with_calcCapAngle 0 90) 0%R
               calcCapAngle_degenerate).
Defined.

(* ===================================================================== *)
(** * More about the antimeridian split                                   *)
(* ===================================================================== *)

Section SplitShape.
Import Raster.
Context `{Libs}.
Local Open Scope float_scope.

(** Every edge appends one point to one list, or one point to both. *)
Lemma edge_parts_length (e : point * point) :
  (length (edge_part1 e) + length (edge_part2 e)
   = 1 + (if straddles e.1 e.2 then 1 else 0))%nat.
Proof.
  destruct e as [first second].
  unfold edge_part1, edge_part2, split_edge. cbn [fst snd].
  destruct (straddles first second); [reflexivity |].
  destruct (first.1 <? 180); reflexivity.
Qed.

Lemma split_lists_length (es : list (point * point)) :
  (length (flat_map edge_part1 es) + length (flat_map edge_part2 es)
   = length es + length (List.filter (λ e : point * point, straddles e.1 e.2) es))%nat.
Proof.
  induction es as [| e es IH]; [reflexivity |].
  cbn [flat_map List.filter]. rewrite !length_app.
  pose proof (edge_parts_length e) as He.
  destruct (straddles e.1 e.2); cbn [length]; lia.
Qed.

Lemma edges_length (polygon : ring) :
  length (edges polygon) = (length polygon - 1)%nat.
Proof.
  induction polygon as [| p rest IH]; [reflexivity |].
  destruct rest as [| q rest']; [reflexivity |].
  change (edges (p :: q :: rest')) with ((p, q) :: edges (q :: rest')).
  cbn [length] in *. lia.
Qed.

(** When no edge appends to a list, closing that list raises. *)
Lemma split_rings_empty_list (polygon : ring) :
  flat_map edge_part1 (edges polygon) = [] ∨
  flat_map edge_part2 (edges polygon) = [] →
  split_rings polygon = Raise IndexError.
Proof.
  unfold split_rings. rewrite split_loop_edges. cbn [app].
  intros [-> | Hempty]; [reflexivity |].
  rewrite Hempty. destruct (flat_map edge_part1 (edges polygon)); reflexivity.
Qed.

Lemma split_rings_raise_inv (polygon : ring) (err : exn) :
  split_rings polygon = Raise err →
  err = IndexError ∧
  (flat_map edge_part1 (edges polygon) = [] ∨
   flat_map edge_part2 (edges polygon) = []).
Proof.
  unfold split_rings. rewrite split_loop_edges. cbn [app].
  destruct (flat_map edge_part1 (edges polygon)) as [| p1 poly1].
  - intros Herr. injection Herr as <-. split; [reflexivity | left; reflexivity].
  - destruct (flat_map edge_part2 (edges polygon)) as [| p2 poly2].
    + intros Herr. injection Herr as <-. split; [reflexivity | right; reflexivity].
    + discriminate.
Qed.

Lemma flat_map_all_nil {A B} (f : A → list B) (l : list A) :
  (∀ x, In x l → f x = []) → flat_map f l = [].
Proof.
  induction l as [| x l IH]; intros Hnil; [reflexivity |].
  cbn. rewrite (Hnil x (or_introl eq_refl)), IH; [reflexivity |].
  intros y Hy. apply Hnil. right. exact Hy.
Qed.

Lemma needs_split_false_In (polygon : ring) (pt : point) :
  needs_split polygon = false → In pt polygon → (180 <? pt.1) = false.
Proof.
  unfold needs_split. induction polygon as [| p rest IH]; intros Hnone Hin.
  - destruct Hin.
  - cbn [existsb] in Hnone. apply orb_false_iff in Hnone as [Hhd Htl].
    destruct Hin as [<- | Hin]; [exact Hhd | exact (IH Htl Hin)].
Qed.

(** X10: the two rings the split returns are closed, each ending on its own
    first point, and have at least two points each; together they hold one
    point per edge of the input, one more per crossing, and the two closing
    points. *)
Theorem split_rings_closed (polygon ringA ringB : ring) :
  split_rings polygon = Ok (ringA, ringB) →
  head ringA = last ringA ∧ head ringB = last ringB ∧
  (2 <= length ringA)%nat ∧ (2 <= length ringB)%nat ∧
  (length ringA + length ringB
   = (length polygon - 1) + crossings polygon + 2)%nat.
Proof.
  intros Hsplit.
  destruct (split_rings_inv _ _ _ Hsplit)
    as (poly1 & poly2 & p1 & p2 & Hp1 & Hp2 & Hh1 & Hh2 & -> & ->).
  pose proof (split_lists_length (edges polygon)) as Hlen.
  rewrite <- Hp1, <- Hp2, edges_length in Hlen.
  destruct poly1 as [| q1 poly1]; [discriminate Hh1 |].
  destruct poly2 as [| q2 poly2]; [discriminate Hh2 |].
  cbn in Hh1, Hh2. injection Hh1 as ->. injection Hh2 as ->.
  repeat split.
  - rewrite last_snoc. reflexivity.
  - rewrite map_app. cbn [map]. rewrite last_snoc. reflexivity.
  - rewrite length_app. cbn. lia.
  - rewrite length_map, length_app. cbn. lia.
  - rewrite length_map, !length_app. unfold crossings. cbn [length] in *. lia.
Qed.

(** X11: the split raises nothing but [IndexError], and raises it when the
    ring lies on one side: when no vertex is below 180, when every vertex
    is below 180 and none above, and when the ring has fewer than two
    vertices. *)
Theorem split_rings_one_sided (polygon : ring) :
  (∀ err, split_rings polygon = Raise err → err = IndexError) ∧
  (Forall (λ pt : point, (pt.1 <? 180) = false) polygon →
   split_rings polygon = Raise IndexError) ∧
  (needs_split polygon = false →
   Forall (λ pt : point, (pt.1 <? 180) = true) polygon →
   split_rings polygon = Raise IndexError) ∧
  ((length polygon < 2)%nat → split_rings polygon = Raise IndexError).
Proof.
  split; [| split; [| split]].
  - intros err Herr. apply (split_rings_raise_inv _ _ Herr).
  - intros Hall. apply split_rings_empty_list. left.
    apply flat_map_all_nil. intros [first second] Hedge.
    destruct (edges_In _ _ _ Hedge) as [Hf Hs].
    rewrite Forall_forall in Hall.
    pose proof (Hall first (proj2 (list_elem_of_In _ _) Hf)) as Hfirst.
    pose proof (Hall second (proj2 (list_elem_of_In _ _) Hs)) as Hsecond.
    cbn beta in Hfirst, Hsecond.
    unfold edge_part1, split_edge, straddles. cbn [fst snd].
    rewrite Hfirst, Hsecond, andb_false_r. reflexivity.
  - intros Hnone Hall. apply split_rings_empty_list. right.
    apply flat_map_all_nil. intros [first second] Hedge.
    destruct (edges_In _ _ _ Hedge) as [Hf Hs].
    rewrite Forall_forall in Hall.
    pose proof (Hall first (proj2 (list_elem_of_In _ _) Hf)) as Hfirst.
    cbn beta in Hfirst.
    pose proof (needs_split_false_In _ _ Hnone Hf) as Hf180.
    pose proof (needs_split_false_In _ _ Hnone Hs) as Hs180.
    unfold edge_part2, split_edge, straddles. cbn [fst snd].
    rewrite Hfirst, Hf180, Hs180. reflexivity.
  - intros Hshort. apply split_rings_empty_list. left.
    destruct polygon as [| p [| q rest]]; [reflexivity | reflexivity |].
    cbn in Hshort. lia.
Qed.

(** X12: every point of ring B is either a vertex of the input that is not
    below 180, shifted by line 169, or a crossing point, which the shift
    puts at longitude exactly -180. *)
Theorem ring_B_contents (polygon ringA ringB : ring) :
  split_rings polygon = Ok (ringA, ringB) →
  ∀ pt : point,
    In pt ringB →
    (∃ vertex : point,
       In vertex polygon ∧ (vertex.1 <? 180) = false ∧ pt = wrap_point vertex) ∨
    (∃ first second : point,
       In (first, second) (edges polygon) ∧
       straddles first second = true ∧
       pt = (-180, np_interp 180 (first.1, second.1) (first.2, second.2))).
Proof.
  intros Hsplit pt Hpt.
  destruct (split_rings_inv _ _ _ Hsplit)
    as (poly1 & poly2 & p1 & p2 & Hp1 & Hp2 & Hh1 & Hh2 & -> & ->).
  apply in_map_iff in Hpt as (v & <- & Hv).
  assert (Hin : In v poly2).
  { apply in_app_or in Hv as [Hv | [<- | []]]; [exact Hv |].
    destruct poly2; [discriminate Hh2 |].
    injection Hh2 as ->. left. reflexivity. }
  rewrite Hp2 in Hin. apply in_flat_map in Hin as [[first second] [Hedge Hpart]].
  destruct (edge_part2_cases first second)
    as [[Hs Heq] | [(_ & _ & Heq) | (_ & Hlt & Heq)]];
    rewrite Heq in Hpart.
  - destruct Hpart as [<- | []]. right. exists first, second.
    repeat split; assumption.
  - destruct Hpart.
  - destruct Hpart as [<- | []]. left. exists first.
    repeat split; [apply (edges_In _ _ _ Hedge) | exact Hlt].
Qed.

End SplitShape.

Lemma split_rings_closed_witness :
  @Raster.split_rings Demo.demo_libs Demo.seam_ring
  = Ok ([(170, 0); (180, 1); (180, -1); (179, -1); (170, 0)]%float,
        [(-180, 1); (-179, 1); (-180, -1); (-180, 1)]%float) ∧
  (5 + 4 = (length Demo.seam_ring - 1)
           + Raster.crossings Demo.seam_ring + 2)%nat.
Proof.
  split; [vm_compute; reflexivity |].
  apply (@split_rings_closed Demo.demo_libs Demo.seam_ring _ _ eq_refl).
Defined.

Lemma split_rings_one_sided_witness :
  Forall (λ pt : Raster.point, (pt.1 <? 180)%float = false)
         [(181, 0); (182, 1); (181, 2); (181, 0)]%float ∧
  @Raster.split_rings Demo.demo_libs [(181, 0); (182, 1); (181, 2); (181, 0)]%float
  = Raise IndexError.
Proof.
  assert (Hall : Forall (λ pt : Raster.point, (pt.1 <? 180)%float = false)
                        [(181, 0); (182, 1); (181, 2); (181, 0)]%float)
    by (repeat constructor).
  split; [exact Hall |].
  destruct (@split_rings_one_sided Demo.demo_libs
              [(181, 0); (182, 1); (181, 2); (181, 0)]%float) as (_ & Heast & _).
  exact (Heast Hall).
Defined.

Lemma ring_B_contents_witness :
  @Raster.split_rings Demo.demo_libs Demo.ring180
  = Ok ([(170, 0); (180, 0); (170, 0)]%float,
        [(-180, 1); (-180, 0); (-180, 1)]%float) ∧
  ((∃ vertex : Raster.point,
      In vertex Demo.ring180 ∧ (vertex.1 <? 180)%float = false ∧
      (-180, 0)%float = Raster.wrap_point vertex) ∨
   (∃ first second : Raster.point,
      In (first, second) (Raster.edges Demo.ring180) ∧
      Raster.straddles first second = true ∧
      (-180, 0)%float
      = ((-180)%float,
         Raster.np_interp2 180 (first.1, second.1) (first.2, second.2)))).
Proof.
  split; [vm_compute; reflexivity |].
  apply (@ring_B_contents Demo.demo_libs Demo.ring180 _ _ eq_refl).
  right. left. reflexivity.
Defined.

(* ===================================================================== *)
(** * How the rasterizer ends                                             *)
(* ===================================================================== *)

Section RasterizerOutcome.
Import Raster.
Context `{Libs}.
Local Open Scope float_scope.

(** The outcome of the split branch: the bare [except] leaves a set. *)
Lemma split_branch_returns (lat lng : float) (polygon : ring) :
  ∃ (out : list event) (cells : gset string),
    match split_antimeridian_polygon polygon with
    | Raise _ => _ ← print (PrintLatLng lat lng); mret (∅ : gset string)
    | Ok (first, second) =>
        match h3_polyfill first with
        | Raise _ => _ ← print (PrintLatLng lat lng); mret (∅ : gset string)
        | Ok filled1 =>
            match h3_polyfill second with
            | Raise _ => _ ← print (PrintLatLng lat lng); mret (∅ ∪ filled1)
            | Ok filled2 => mret (∅ ∪ filled1 ∪ filled2)
            end
        end
    end = (out, Ok cells).
Proof.
  destruct (split_antimeridian_polygon polygon) as [[first second] | e];
    [| eexists _, _; reflexivity].
  destruct (h3_polyfill first) as [filled1 | e1]; [| eexists _, _; reflexivity].
  destruct (h3_polyfill second) as [filled2 | e2]; eexists _, _; reflexivity.
Qed.

(** X13: [get_cell_ids_h3] raises in three cases only: the polygon
    constructor of line 188 raises something other than [ValueError], which
    passes through; or, with no vertex beyond 180, it raises [ValueError],
    which ends in the [UnboundLocalError] of line 209; or, with no vertex
    beyond 180, the fill of line 209 raises, which passes through.  With a
    vertex beyond 180 and a constructor that returns or raises [ValueError]
    the function always returns a set. *)
Theorem get_cell_ids_h3_raises_iff (lat lng angle : float) (err : exn) :
  let polygon := footprint_ring lat lng angle in
  (get_cell_ids_h3 lat lng angle).2 = Raise err
  ↔ (shapely_Polygon polygon = Raise err ∧ err ≠ ValueError) ∨
    (needs_split polygon = false ∧
     shapely_Polygon polygon = Raise ValueError ∧ err = UnboundLocalError) ∨
    (needs_split polygon = false ∧
     ∃ m, shapely_Polygon polygon = Ok m ∧ h3_polyfill m = Raise err).
Proof.
  intros polygon. unfold get_cell_ids_h3. cbv zeta. fold polygon.
  clearbody polygon.
  destruct (split_branch_returns lat lng polygon) as (out & cells & Hbranch).
  destruct (shapely_Polygon polygon) as [m | e] eqn:Hpoly.
  - destruct (needs_split polygon) eqn:Hsplit.
    + cbn. cbn in Hbranch. rewrite Hbranch. cbn. split; [discriminate |].
      intros [[Hr _] | [(Hn & _) | (Hn & _)]]; discriminate.
    + cbn. unfold lift. destruct (h3_polyfill m) as [filled | e] eqn:Hfill; cbn.
      * split; [discriminate |].
        intros [[Hr _] | [(_ & Hr & _) | (_ & m' & Hm & Hr)]]; try discriminate.
        injection Hm as <-. rewrite Hfill in Hr. discriminate Hr.
      * split.
        -- intros Herr. injection Herr as <-. right. right.
           split; [reflexivity |]. exists m. split; [reflexivity | exact Hfill].
        -- intros [[Hr _] | [(_ & Hr & _) | (_ & m' & Hm & Hr)]]; try discriminate.
           injection Hm as <-. rewrite Hfill in Hr. exact Hr.
  - destruct e;
      try (cbn; split;
           [ intros Herr; injection Herr as <-; left; split; [reflexivity | discriminate]
           | intros [[Hr _] | [(_ & Hr & _) | (_ & m' & Hm & _)]];
             [injection Hr as <-; reflexivity | discriminate Hr | discriminate Hm] ]).
    destruct (needs_split polygon) eqn:Hsplit.
    + cbn. cbn in Hbranch. rewrite Hbranch. cbn. split; [discriminate |].
      intros [[Hr Hne] | [(Hn & _) | (Hn & _)]]; [congruence | discriminate | discriminate].
    + cbn. split.
      * intros Herr. injection Herr as <-. right. left. repeat split.
      * intros [[Hr Hne] | [(_ & _ & ->) | (_ & m' & Hm & _)]];
          [congruence | reflexivity | discriminate Hm].
Qed.

End RasterizerOutcome.

Lemma get_cell_ids_h3_raises_iff_witness :
  Raster.needs_split (@Raster.footprint_ring Demo.demo_libs nan nan nan) = false ∧
  Demo.demo_Polygon (@Raster.footprint_ring Demo.demo_libs nan nan nan)
  = Raise ValueError ∧
  (@Raster.get_cell_ids_h3 Demo.demo_libs nan nan nan).2 = Raise UnboundLocalError.
Proof.
  assert (Hsplit : Raster.needs_split (@Raster.footprint_ring Demo.demo_libs nan nan nan)
                   = false) by (vm_compute; reflexivity).
  assert (Hpoly : Demo.demo_Polygon (@Raster.footprint_ring Demo.demo_libs nan nan nan)
                  = Raise ValueError) by (vm_compute; reflexivity).
  split; [exact Hsplit |]. split; [exact Hpoly |].
  apply (@get_cell_ids_h3_raises_iff Demo.demo_libs nan nan nan UnboundLocalError).
  right. left. repeat split; assumption.
Defined.

(* ===================================================================== *)
(** * The dictionary of sub-points                                        *)
(* ===================================================================== *)

Section DictFacts.
Import Raster Coverage.
Context {V : Type}.

Lemma dict_get_set (d : list (string * V)) (k k' : string) (v : V) :
  dict_get (dict_set d k v) k'
  = if String.eqb k k' then Some v else dict_get d k'.
Proof.
  induction d as [| [k0 v0] d IH]; cbn.
  - destruct (String.eqb k k'); reflexivity.
  - destruct (String.eqb k0 k) eqn:Hk0; cbn.
    + apply String.eqb_eq in Hk0 as ->.
      destruct (String.eqb k k'); reflexivity.
    + rewrite IH. destruct (String.eqb k0 k') eqn:Hk0'; [| reflexivity].
      apply String.eqb_eq in Hk0' as ->. rewrite String.eqb_sym, Hk0. reflexivity.
Qed.

Lemma dict_set_keys (d : list (string * V)) (k k' : string) (v : V) :
  In k' (map fst (dict_set d k v)) ↔ k' = k ∨ In k' (map fst d).
Proof.
  induction d as [| [k0 v0] d IH]; cbn.
  - intuition.
  - destruct (String.eqb k0 k) eqn:Hk0; cbn.
    + apply String.eqb_eq in Hk0 as ->. intuition.
    + rewrite IH. intuition.
Qed.

Lemma dict_set_NoDup (d : list (string * V)) (k : string) (v : V) :
  List.NoDup (map fst d) → List.NoDup (map fst (dict_set d k v)).
Proof.
  induction d as [| [k0 v0] d IH]; cbn; intros Hnd.
  - constructor; [intros [] | constructor].
  - apply List.NoDup_cons_iff in Hnd as [Hk0 Hnd].
    destruct (String.eqb k0 k) eqn:Hk; cbn.
    + apply List.NoDup_cons_iff. split; assumption.
    + apply List.NoDup_cons_iff. split; [| exact (IH Hnd)].
      rewrite dict_set_keys. intros [-> | Hin]; [| exact (Hk0 Hin)].
      rewrite String.eqb_refl in Hk. discriminate Hk.
Qed.

Lemma dict_get_In (d : list (string * V)) (k : string) (v : V) :
  List.NoDup (map fst d) → In (k, v) d ↔ dict_get d k = Some v.
Proof.
  induction d as [| [k0 v0] d IH]; cbn; intros Hnd.
  - split; [intros [] | discriminate].
  - apply List.NoDup_cons_iff in Hnd as [Hk0 Hnd].
    destruct (String.eqb k0 k) eqn:Hk.
    + apply String.eqb_eq in Hk as ->. split.
      * intros [Heq | Hin]; [congruence |].
        exfalso. apply Hk0. apply in_map_iff. exists (k, v). split; [reflexivity | exact Hin].
      * intros Heq. left. congruence.
    + rewrite <- (IH Hnd). split; [| intros Hin; right; exact Hin].
      intros [Heq | Hin]; [| exact Hin].
      injection Heq as -> _. rewrite String.eqb_refl in Hk. discriminate Hk.
Qed.

Lemma dict_fold_get (items d : list (string * V)) (k : string) :
  dict_get (foldl (λ d kv, dict_set d kv.1 kv.2) d items) k
  = match last_value items k with
    | Some v => Some v
    | None => dict_get d k
    end.
Proof.
  revert d. induction items as [| [k0 v0] rest IH]; intros d; [reflexivity |].
  cbn [foldl last_value fst snd]. rewrite IH, dict_get_set.
  destruct (last_value rest k); [reflexivity |].
  destruct (String.eqb k0 k); reflexivity.
Qed.

Lemma dict_fold_NoDup (items d : list (string * V)) :
  List.NoDup (map fst d) →
  List.NoDup (map fst (foldl (λ d kv, dict_set d kv.1 kv.2) d items)).
Proof.
  revert d. induction items as [| [k0 v0] rest IH]; intros d Hnd; [exact Hnd |].
  cbn [foldl]. apply IH, dict_set_NoDup, Hnd.
Qed.

Lemma dict_fold_length (items d : list (string * V)) :
  (length (foldl (λ d kv, dict_set d kv.1 kv.2) d items)
   <= length d + length items)%nat.
Proof.
  assert (Hset : ∀ (d : list (string * V)) k v,
            (length (dict_set d k v) <= S (length d))%nat).
  { intros d0 k v. induction d0 as [| [k0 v0] d0 IH]; cbn; [lia |].
    destruct (String.eqb k0 k); cbn; lia. }
  revert d. induction items as [| [k0 v0] rest IH]; intros d; cbn [foldl length]; [lia |].
  specialize (IH (dict_set d k0 v0)). specialize (Hset d k0 v0). cbn [fst snd]. lia.
Qed.

(** A dictionary built from a list of items holds every key once, and
    under a key the value of the last item with that key; it is never
    longer than the list. *)
Lemma dict_of_last_wins (items : list (string * V)) :
  List.NoDup (map fst (dict_of items)) ∧
  (∀ k v, In (k, v) (dict_of items) ↔ last_value items k = Some v) ∧
  (∀ k, In k (map fst (dict_of items)) ↔ In k (map fst items)) ∧
  (length (dict_of items) <= length items)%nat.
Proof.
  assert (Hnd : List.NoDup (map fst (dict_of items)))
    by (apply dict_fold_NoDup; constructor).
  assert (Hget : ∀ k v, In (k, v) (dict_of items) ↔ last_value items k = Some v).
  { intros k v. rewrite (dict_get_In _ k v Hnd). unfold dict_of.
    rewrite dict_fold_get. cbn. destruct (last_value items k); reflexivity. }
  split; [exact Hnd |]. split; [exact Hget |]. split.
  - intros k.
    assert (Hlast : In k (map fst items) ↔ ∃ v, last_value items k = Some v).
    { clear. induction items as [| [k0 v0] rest IH]; cbn.
      - split; [intros [] | intros [v Hv]; discriminate Hv].
      - rewrite IH. split.
        + intros [-> | [v Hv]].
          * destruct (last_value rest k); [eexists; reflexivity |].
            rewrite String.eqb_refl. eexists; reflexivity.
          * rewrite Hv. eexists; reflexivity.
        + intros [v Hv]. destruct (last_value rest k) as [v' |].
          * right. eexists; reflexivity.
          * destruct (String.eqb k0 k) eqn:Hk; [| discriminate Hv].
            left. apply String.eqb_eq, Hk. }
    rewrite Hlast. split.
    + intros Hin. apply in_map_iff in Hin as ([k' v] & <- & Hin).
      exists v. apply Hget, Hin.
    + intros [v Hv]. apply in_map_iff. exists (k, v).
      split; [reflexivity | apply Hget, Hv].
  - pose proof (dict_fold_length items []) as Hlen. exact Hlen.
Qed.

End DictFacts.

(* ===================================================================== *)
(** * More about the accumulation loop                                    *)
(* ===================================================================== *)

Section LoopOutcome.
Import Raster Coverage.
Context `{Libs} `{World}.
Local Open Scope Z_scope.

(** The inner loop returns exactly when every footprint is computed. *)
Lemma sats_loop_ok_iff (items : list (string * Subpoint)) (start : gset string) :
  (∃ result, (sats_loop items start).2 = Ok result)
  ↔ ∀ item, In item items → ∃ cells, (sat_footprint item.2).2 = Ok cells.
Proof.
  revert start. induction items as [| [sat_name sat] rest IH]; intros start.
  - split; [intros _ item [] | intros _; eexists; reflexivity].
  - cbn [sats_loop]. rewrite M_bind_snd, sat_cells_snd.
    destruct (sat_footprint sat).2 as [cells | e] eqn:Hfoot;
      cbn [mbind res_mbind res_bind].
    + rewrite IH. split.
      * intros Hrest item [<- | Hin]; [exists cells; exact Hfoot | exact (Hrest item Hin)].
      * intros Hall item Hin. apply Hall. right. exact Hin.
    + split; [intros [result Hr]; discriminate Hr |].
      intros Hall. destruct (Hall (sat_name, sat) (or_introl eq_refl)) as [cells Hc].
      change (sat_footprint sat).2 with (sat_footprint (sat_name, sat).2).2 in Hfoot.
      rewrite Hfoot in Hc. discriminate Hc.
Qed.

Lemma run_times_ok_iff (times : list Z) (coverage : gmap string Z) :
  (∃ result, run_times times coverage = Ok result)
  ↔ ∀ time, In time times → ∃ coverage_set, (step_cells time).2 = Ok coverage_set.
Proof.
  revert coverage. induction times as [| time rest IH]; intros coverage.
  - split; [intros _ t [] | intros _; eexists; reflexivity].
  - cbn [run_times].
    destruct (step_cells time).2 as [coverage_set | e] eqn:Hcells; cbn.
    + rewrite IH. split.
      * intros Hrest t [<- | Hin]; [eexists; exact Hcells | exact (Hrest t Hin)].
      * intros Hall t Hin. apply Hall. right. exact Hin.
    + split; [intros [result Hr]; discriminate Hr |].
      intros Hall. destruct (Hall time (or_introl eq_refl)) as [cs Hcs].
      rewrite Hcells in Hcs. discriminate Hcs.
Qed.

(** The first minute whose set cannot be built ends the run. *)
Lemma run_times_first_failure (before after : list Z) (time : Z)
    (coverage : gmap string Z) (e : exn) :
  (∀ t, In t before → ∃ coverage_set, (step_cells t).2 = Ok coverage_set) →
  (step_cells time).2 = Raise e →
  run_times (before ++ time :: after) coverage = Raise e.
Proof.
  revert coverage. induction before as [| t before IH]; intros coverage Hok Hraise.
  - cbn [app run_times]. rewrite Hraise. reflexivity.
  - cbn [app run_times].
    destruct (Hok t (or_introl eq_refl)) as [cs Hcs]. rewrite Hcs. cbn.
    apply IH; [| exact Hraise]. intros t' Ht'. apply Hok. right. exact Ht'.
Qed.

(** The count of a cell after a run: one more per minute that covers it. *)
Lemma run_times_exact_count (times : list Z) (coverage result : gmap string Z)
    (cell : string) :
  run_times times coverage = Ok result →
  count result cell
  = count coverage cell + Z.of_nat (length (List.filter (covers cell) times)).
Proof.
  revert coverage. induction times as [| time rest IH]; intros coverage Hrun.
  - cbn in Hrun. injection Hrun as <-. cbn. lia.
  - cbn [run_times] in Hrun. cbn [List.filter]. unfold covers at 1.
    destruct (step_cells time).2 as [coverage_set | e]; [| discriminate Hrun].
    cbn in Hrun. rewrite (IH _ Hrun), accumulate_count.
    destruct (decide (cell ∈ coverage_set)) as [Hin | Hout].
    + rewrite bool_decide_eq_true_2 by exact Hin. cbn [length]. lia.
    + rewrite bool_decide_eq_false_2 by exact Hout. lia.
Qed.

(** A histogram without entries below 1 keeps that through a run. *)
Lemma run_times_positive (times : list Z) (coverage result : gmap string Z) :
  (∀ cell c, coverage !! cell = Some c → 1 <= c) →
  run_times times coverage = Ok result →
  ∀ cell c, result !! cell = Some c → 1 <= c.
Proof.
  revert coverage. induction times as [| time rest IH]; intros coverage Hpos Hrun.
  - cbn in Hrun. injection Hrun as <-. exact Hpos.
  - cbn [run_times] in Hrun.
    destruct (step_cells time).2 as [coverage_set | e]; [| discriminate Hrun].
    cbn in Hrun. refine (IH _ _ Hrun).
    intros cell c. rewrite accumulate_lookup.
    destruct (decide (cell ∈ coverage_set)).
    + intros Hc. injection Hc as <-. unfold count.
      destruct (coverage !! cell) as [c0 |] eqn:Hc0; cbn; [| lia].
      specialize (Hpos cell c0 Hc0). lia.
    + apply Hpos.
Qed.

Lemma filter_length_le {A} (f : A → bool) (l : list A) :
  (length (List.filter f l) <= length l)%nat.
Proof.
  induction l as [| x l IH]; [reflexivity |].
  cbn. destruct (f x); cbn; lia.
Qed.

(** X14: the sub-points of a minute hold every satellite name once; under a
    name stands the sub-point of the last satellite of [op_sats] with that
    name, so satellites sharing a name are rasterized as one. *)
Theorem subpoints_one_per_name (time : Z) :
  List.NoDup (map fst (subpoints time)) ∧
  (∀ sat_name sp,
     In (sat_name, sp) (subpoints time)
     ↔ last_value (map (λ sat, (name sat, subpoint_at sat time)) op_sats) sat_name
       = Some sp) ∧
  (∀ sat, In sat op_sats → In (name sat) (map fst (subpoints time))) ∧
  (length (subpoints time) <= length op_sats)%nat.
Proof.
  unfold subpoints.
  destruct (dict_of_last_wins
              (map (λ sat, (name sat, subpoint_at sat time)) op_sats))
    as (Hnd & Hget & Hkeys & Hlen).
  split; [exact Hnd |]. split; [exact Hget |]. split.
  - intros sat Hsat. apply Hkeys. rewrite map_map. cbn.
    apply in_map_iff. exists sat. split; [reflexivity | exact Hsat].
  - rewrite length_map in Hlen. exact Hlen.
Qed.

(** X15: a run of [N] minutes returns a histogram exactly when, at each of
    its minutes, the footprint of every sub-point is computed without an
    exception; the first minute at which one raises ends the run with that
    exception, and no histogram is left. *)
Theorem simulate_completes_iff (N : nat) (process : Z) :
  ((∃ coverage, (simulate N process).2 = Ok coverage)
   ↔ ∀ i : nat, (i < N)%nat →
       ∀ item, In item (subpoints (process * Z.of_nat N + Z.of_nat i)) →
               ∃ cells, (sat_footprint item.2).2 = Ok cells) ∧
  (∀ (i : nat) (e : exn),
     (i < N)%nat →
     (∀ j : nat, (j < i)%nat →
        ∃ coverage_set,
          (step_cells (process * Z.of_nat N + Z.of_nat j)).2 = Ok coverage_set) →
     (step_cells (process * Z.of_nat N + Z.of_nat i)).2 = Raise e →
     (simulate N process).2 = Raise e).
Proof.
  rewrite simulate_run_times. split.
  - rewrite run_times_ok_iff. split.
    + intros Hall i Hi. apply (sats_loop_ok_iff _ ∅).
      apply Hall. apply in_map_iff. exists i. split; [reflexivity |].
      apply in_seq. lia.
    + intros Hall time Htime. apply in_map_iff in Htime as (i & <- & Hi).
      apply in_seq in Hi. apply (sats_loop_ok_iff _ ∅). apply Hall. lia.
  - intros i e Hi Hbefore Hraise.
    assert (Hseq : seq 0 N = seq 0 i ++ i :: seq (S i) (N - S i)).
    { replace N with (i + S (N - S i))%nat at 1 by lia.
      rewrite seq_app. reflexivity. }
    rewrite Hseq, map_app. cbn [map].
    apply run_times_first_failure; [| exact Hraise].
    intros t Ht. apply in_map_iff in Ht as (j & <- & Hj).
    apply in_seq in Hj. apply Hbefore. lia.
Qed.

(** X16: after a completed run of [N] minutes (360 for a partition) the
    count of a cell is the number of those minutes at which the step's set
    holds the cell; it lies between 0 and [N], and the histogram has an
    entry for the cell exactly when that number is not 0: no entry is 0. *)
Theorem simulate_counts_covering_minutes (N : nat) (process : Z)
    (coverage : gmap string Z) (cell : string) :
  (simulate N process).2 = Ok coverage →
  count coverage cell
  = Z.of_nat (length (List.filter (covers cell)
                        (map (λ i, process * Z.of_nat N + Z.of_nat i) (seq 0 N)))) ∧
  0 <= count coverage cell <= Z.of_nat N ∧
  (coverage !! cell = None ↔ count coverage cell = 0) ∧
  (∀ c, coverage !! cell = Some c → 1 <= c <= Z.of_nat N).
Proof.
  intros Hrun. rewrite simulate_run_times in Hrun.
  set (times := map (λ i, process * Z.of_nat N + Z.of_nat i) (seq 0 N)) in *.
  pose proof (run_times_exact_count _ _ _ cell Hrun) as Hcount.
  pose proof (filter_length_le (covers cell) times) as Hle.
  assert (Hlen : length times = N)
    by (unfold times; rewrite length_map, length_seq; reflexivity).
  rewrite Hlen in Hle.
  assert (Hempty : count (∅ : gmap string Z) cell = 0)
    by (unfold count; rewrite lookup_empty; reflexivity).
  rewrite Hempty in Hcount.
  assert (Hpos : ∀ c, coverage !! cell = Some c → 1 <= c).
  { intros c. refine (run_times_positive _ ∅ _ _ Hrun cell c).
    intros cell' c'. rewrite lookup_empty. discriminate. }
  set (n := length (List.filter (covers cell) times)) in *.
  clearbody n. clear Hrun.
  split; [lia |]. split; [lia |].
  destruct (coverage !! cell) as [c |] eqn:Hc.
  - specialize (Hpos c eq_refl).
    assert (Hcell : count coverage cell = c)
      by (unfold count; rewrite Hc; reflexivity).
    split; [split; [discriminate | lia] |].
    intros c' Hc'. injection Hc' as <-. lia.
  - assert (Hcell : count coverage cell = 0)
      by (unfold count; rewrite Hc; reflexivity).
    split; [split; [intros _; exact Hcell | reflexivity] |].
    intros c' Hc'. discriminate Hc'.
Qed.

End LoopOutcome.

Lemma simulate_counts_covering_minutes_witness :
  (@Coverage.simulate Demo.demo_libs Demo.demo_world 3 0).2
  = Ok ({[ "east" := 3%Z; "west" := 3%Z ]} : gmap string Z) ∧
  (0 <= Coverage.count ({[ "east" := 3%Z; "west" := 3%Z ]} : gmap string Z) "north"
     <= 3)%Z.
Proof.
  split; [vm_compute; reflexivity |].
  apply (@simulate_counts_covering_minutes Demo.demo_libs Demo.demo_world 3 0 _ "north").
  vm_compute. reflexivity.
Defined.

Lemma simulate_completes_iff_witness :
  (0 < 2)%nat ∧
  (@Coverage.step_cells Demo.demo_libs Demo.lost_world (0 * Z.of_nat 2 + Z.of_nat 0)).2
  = Raise UnboundLocalError ∧
  (@Coverage.simulate Demo.demo_libs Demo.lost_world 2 0).2
  = Raise UnboundLocalError.
Proof.
  assert (Hstep : (@Coverage.step_cells Demo.demo_libs Demo.lost_world
                     (0 * Z.of_nat 2 + Z.of_nat 0)).2 = Raise UnboundLocalError)
    by (vm_compute; reflexivity).
  split; [lia |]. split; [exact Hstep |].
  apply (proj2 (@simulate_completes_iff Demo.demo_libs Demo.lost_world 2 0)
               0%nat UnboundLocalError); [lia | intros j Hj; lia | exact Hstep].
Defined.

Lemma subpoints_one_per_name_witness :
  In Demo.sat_dateline (@Coverage.op_sats Demo.demo_world) ∧
  In "STARLINK-2" (map fst (@Coverage.subpoints Demo.demo_world 0)).
Proof.
  assert (Hin : In Demo.sat_dateline (@Coverage.op_sats Demo.demo_world))
    by (right; left; reflexivity).
  split; [exact Hin |].
  destruct (@subpoints_one_per_name Demo.demo_world 0) as (_ & _ & Hnames & _).
  exact (Hnames Demo.sat_dateline Hin).
Defined.

(* ===================================================================== *)
(** * A ring the polygon constructor refuses                              *)
(* ===================================================================== *)

Section RefusedPolygon.
Import Raster Coverage.
Context `{Libs} `{World}.
Local Open Scope Z_scope.

(** C7 fails on a ring the polygon constructor refuses.  For a sub-point
    whose ring has no vertex beyond 180 and makes the constructor of line
    188 raise [ValueError], the handler of line 189 prints the coordinates
    and the ring and goes on; line 209 then reads [mapping], which was never
    bound, and the rasterizer raises [UnboundLocalError] instead of
    returning a set.  Nothing in the loop catches it: a run whose earlier
    minutes and earlier satellites go through ends with that exception at
    the minute it meets the sub-point. *)
Theorem refused_polygon_aborts_the_run (sat : Subpoint) (angle : float) :
  let polygon := footprint_ring (latitude sat) (longitude sat) angle in
  calcCapAngle_f64 (elevation_km sat) 35 = Ok angle →
  shapely_Polygon polygon = Raise ValueError →
  needs_split polygon = false →
  get_cell_ids_h3 (latitude sat) (longitude sat) angle
  = ([PrintLatLng (latitude sat) (longitude sat); PrintPolygon polygon],
     Raise UnboundLocalError) ∧
  (sat_footprint sat).2 = Raise UnboundLocalError ∧
  ∀ (N : nat) (process : Z) (i : nat)
    (before after : list (string * Subpoint)) (sat_name : string),
    (i < N)%nat →
    (∀ j : nat, (j < i)%nat →
       ∃ coverage_set,
         (step_cells (process * Z.of_nat N + Z.of_nat j)).2 = Ok coverage_set) →
    subpoints (process * Z.of_nat N + Z.of_nat i)
    = before ++ (sat_name, sat) :: after →
    (∀ item, In item before → ∃ cells, (sat_footprint item.2).2 = Ok cells) →
    (simulate N process).2 = Raise UnboundLocalError.
Proof.
  intros polygon Hangle Hpoly Hsplit.
  pose proof (get_cell_ids_h3_unbound _ _ _ Hpoly Hsplit) as Hcall.
  assert (Hfoot : (sat_footprint sat).2 = Raise UnboundLocalError).
  { unfold sat_footprint. rewrite M_bind_snd. unfold lift.
    cbn [snd]. rewrite Hangle, Hcall. reflexivity. }
  split; [exact Hcall |]. split; [exact Hfoot |].
  intros N process i before after sat_name Hi Hearlier Hitems Hbefore.
  assert (Hstep : (step_cells (process * Z.of_nat N + Z.of_nat i)).2
                  = Raise UnboundLocalError).
  { unfold step_cells. cbv zeta. rewrite Hitems.
    apply sats_loop_raises; assumption. }
  rewrite simulate_run_times.
  assert (Hseq : seq 0 N = seq 0 i ++ i :: seq (S i) (N - S i)).
  { replace N with (i + S (N - S i))%nat at 1 by lia.
    rewrite seq_app. reflexivity. }
  rewrite Hseq, map_app. cbn [map].
  apply run_times_first_failure; [| exact Hstep].
  intros t Ht. apply in_map_iff in Ht as (j & <- & Hj).
  apply in_seq in Hj. apply Hearlier. lia.
Qed.

End RefusedPolygon.

Lemma refused_polygon_aborts_the_run_witness :
  Demo.demo_calcCapAngle nan 35 = Ok nan ∧
  Demo.demo_Polygon (@Raster.footprint_ring Demo.demo_libs nan nan nan)
  = Raise ValueError ∧
  Raster.needs_split (@Raster.footprint_ring Demo.demo_libs nan nan nan) = false ∧
  (@Raster.get_cell_ids_h3 Demo.demo_libs nan nan nan).2 = Raise UnboundLocalError ∧
  (@Coverage.simulate Demo.demo_libs Demo.lost_world 1 0).2 = Raise UnboundLocalError.
Proof.
  assert (Hangle : Demo.demo_calcCapAngle nan 35 = Ok nan) by reflexivity.
  assert (Hpoly : Demo.demo_Polygon (@Raster.footprint_ring Demo.demo_libs nan nan nan)
                  = Raise ValueError) by (vm_compute; reflexivity).
  assert (Hsplit : Raster.needs_split (@Raster.footprint_ring Demo.demo_libs nan nan nan)
                   = false) by (vm_compute; reflexivity).
  destruct (@refused_polygon_aborts_the_run Demo.demo_libs Demo.lost_world
              (Coverage.subpoint_at Demo.sat_lost 0) nan Hangle Hpoly Hsplit)
    as (Hcall & _ & Hrun).
  split; [exact Hangle |]. split; [exact Hpoly |]. split; [exact Hsplit |].
  split; [exact (f_equal snd Hcall) |].
  apply (Hrun 1%nat 0%Z 0%nat
           [("STARLINK-1", Coverage.subpoint_at Demo.sat_null_island 0)] []
           "STARLINK-5").
  - lia.
  - intros j Hj. lia.
  - vm_compute. reflexivity.
  - intros item [<- | []]. vm_compute. eexists. reflexivity.
Defined.

(* ===================================================================== *)
(** * More about the histogram                                            *)
(* ===================================================================== *)

Section HistogramFacts.
Import Raster Coverage.
Local Open Scope Z_scope.

Lemma foldl_as_foldr_rev {A B} (f : A → B → A) (a : A) (l : list B) :
  foldl f a l = foldr (λ x acc, f acc x) a (rev l).
Proof.
  revert a. induction l as [| x l IH]; intros a; [reflexivity |].
  cbn [foldl rev]. rewrite IH, foldr_app. reflexivity.
Qed.

(** X17: the histogram after [for cell in coverage_set: coverage[cell] += 1]
    does not depend on the order in which the set is walked: walking any
    duplicate-free list of the cells from first to last gives the histogram
    [accumulate] gives. *)
Theorem accumulate_order_irrelevant (coverage : gmap string Z) (cells : list string) :
  NoDup cells →
  foldl (λ cov cell, <[cell := count cov cell + 1]> cov) coverage cells
  = accumulate coverage (list_to_set cells).
Proof.
  intros Hnodup. rewrite foldl_as_foldr_rev.
  apply accumulate_any_order.
  - rewrite <- Permutation_rev. exact Hnodup.
  - intros cell. rewrite elem_of_list_to_set, !list_elem_of_In.
    symmetry. apply in_rev.
Qed.

(** X18: accumulating a step's set adds the set's cells to the keys of the
    histogram and removes none; no count goes down, and the entries of the
    cells outside the set are untouched. *)
Theorem accumulate_keys_and_counts (coverage : gmap string Z)
    (coverage_set : gset string) :
  dom (accumulate coverage coverage_set) = dom coverage ∪ coverage_set ∧
  (∀ cell, count coverage cell <= count (accumulate coverage coverage_set) cell) ∧
  (∀ cell, cell ∉ coverage_set →
           accumulate coverage coverage_set !! cell = coverage !! cell).
Proof.
  split; [| split].
  - apply set_eq. intros cell.
    rewrite elem_of_union, !elem_of_dom, accumulate_lookup.
    destruct (decide (cell ∈ coverage_set)) as [Hin | Hout].
    + split; [intros _; right; exact Hin | intros _; eexists; reflexivity].
    + split; [intros Hsome; left; exact Hsome | intros [Hsome | Hin]; [exact Hsome | contradiction]].
  - intros cell. rewrite accumulate_count.
    destruct (decide (cell ∈ coverage_set)); lia.
  - intros cell Hout. rewrite accumulate_lookup, decide_False by exact Hout.
    reflexivity.
Qed.

(** X19: after [readTokens] every stripped line of the file is a key with
    count 0, also when it had a count before, and the other entries are as
    they were. *)
Theorem readTokens_seeds_zero (strip : string → string) (lines : list string)
    (coverage : gmap string Z) (tok : string) :
  (In tok (map strip lines) → readTokens strip lines coverage !! tok = Some 0) ∧
  (¬ In tok (map strip lines) →
   readTokens strip lines coverage !! tok = coverage !! tok).
Proof.
  unfold readTokens. revert coverage.
  induction lines as [| line rest IH]; intros coverage.
  - split; [intros [] | intros _; reflexivity].
  - cbn [foldl map]. destruct (IH (<[strip line := 0]> coverage)) as [IHin IHout].
    destruct (in_dec String.string_dec tok (map strip rest)) as [Hrest | Hrest].
    + split; [intros _; exact (IHin Hrest) | intros Hnot; exfalso; apply Hnot; right; exact Hrest].
    + rewrite (IHout Hrest). split.
      * intros [Heq | Hin]; [| contradiction].
        rewrite Heq, lookup_insert_eq. reflexivity.
      * intros Hnot. rewrite lookup_insert_ne; [reflexivity |].
        intros Heq. apply Hnot. left. exact Heq.
Qed.

(** X20: the partition index is not checked: a minute of partition
    [process] lies in the day, [0 <= t < 1440], exactly when
    [0 <= process <= 3]. *)
Theorem partition_inside_day_iff (process t : Z) :
  In t (partition_steps process) →
  (0 <= t < 1440 ↔ 0 <= process <= 3).
Proof.
  rewrite partition_steps_range. intros Hrange. lia.
Qed.

End HistogramFacts.

Lemma accumulate_order_irrelevant_witness :
  NoDup ["west"; "east"] ∧
  foldl (λ cov cell, <[cell := (Coverage.count cov cell + 1)%Z]> cov)
        ({[ "east" := 4%Z ]} : gmap string Z) ["west"; "east"]
  = Coverage.accumulate {[ "east" := 4%Z ]} (list_to_set ["west"; "east"]).
Proof.
  assert (Hnd : NoDup ["west"; "east"]).
  { apply NoDup_cons_2; [| apply NoDup_singleton].
    intros Hin. apply list_elem_of_In in Hin. destruct Hin as [Heq | []].
    discriminate Heq. }
  split; [exact Hnd |].
  exact (accumulate_order_irrelevant _ _ Hnd).
Defined.

Lemma accumulate_keys_and_counts_witness :
  ("north" ∉ ({[ "east" ]} : gset string)) ∧
  (Coverage.accumulate ({[ "north" := 7%Z ]} : gmap string Z) {[ "east" ]}) !! "north"
  = ({[ "north" := 7%Z ]} : gmap string Z) !! "north".
Proof.
  assert (Hout : "north" ∉ ({[ "east" ]} : gset string)) by set_solver.
  split; [exact Hout |].
  destruct (accumulate_keys_and_counts ({[ "north" := 7%Z ]} : gmap string Z)
              {[ "east" ]}) as (_ & _ & Hkeep).
  exact (Hkeep "north" Hout).
Defined.

Lemma readTokens_seeds_zero_witness :
  In "cell" (map (λ line : string, line) ["cell"; "other"]) ∧
  (Coverage.readTokens (λ line, line) ["cell"; "other"]
     ({[ "cell" := 9%Z ]} : gmap string Z)) !! "cell" = Some 0%Z.
Proof.
  assert (Hin : In "cell" (map (λ line : string, line) ["cell"; "other"]))
    by (left; reflexivity).
  split; [exact Hin |].
  exact (proj1 (readTokens_seeds_zero (λ line, line) ["cell"; "other"]
                  {[ "cell" := 9%Z ]} "cell") Hin).
Defined.

Lemma partition_inside_day_iff_witness :
  In 1800%Z (Coverage.partition_steps 5) ∧ ¬ (0 <= 1800 < 1440)%Z.
Proof.
  assert (Hin : In 1800%Z (Coverage.partition_steps 5))
    by (apply partition_steps_range; lia).
  split; [exact Hin |].
  intros Hday. apply (partition_inside_day_iff 5 1800 Hin) in Hday. lia.
Defined.

(* ===================================================================== *)
(** * What is printed, and what the split branch returns                  *)
(* ===================================================================== *)

Section OutputFacts.
Import Raster Coverage.
Context `{Libs} `{World}.
Local Open Scope Z_scope.

(** The output of a computation that starts with a bind. *)
Lemma M_bind_fst {A B} (m : M A) (k : A → M B) :
  (m ≫= k).1 = m.1 ++ match m.2 with
                      | Ok a => (k a).1
                      | Raise _ => []
                      end.
Proof.
  destruct m as [out [a | e]]; cbn; [| rewrite app_nil_r; reflexivity].
  destruct (k a) as [out' r]. reflexivity.
Qed.

(** The rasterizer prints coordinates and polygons, never a progress line. *)
Lemma get_cell_ids_h3_no_time (lat lng angle : float) :
  List.filter is_time_print (get_cell_ids_h3 lat lng angle).1 = [].
Proof.
  unfold get_cell_ids_h3. cbv zeta.
  generalize (footprint_ring lat lng angle). intros polygon.
  destruct (shapely_Polygon polygon) as [m | []];
    destruct (needs_split polygon); cbn; try reflexivity;
    try (destruct (h3_polyfill m); reflexivity);
    (destruct (split_antimeridian_polygon polygon) as [[first second] | e];
     cbn; [| reflexivity];
     destruct (h3_polyfill first); cbn; [| reflexivity];
     destruct (h3_polyfill second); reflexivity).
Qed.

Lemma sat_cells_no_time (sat : Subpoint) (coverage_set : gset string) :
  List.filter is_time_print (sat_cells sat coverage_set).1 = [].
Proof.
  unfold sat_cells, sat_footprint. rewrite !M_bind_fst, !List.filter_app.
  unfold lift at 1. cbn [fst snd app List.filter].
  destruct (calcCapAngle_f64 (elevation_km sat) 35) as [angle | e];
    [| reflexivity].
  rewrite M_bind_snd. cbn [snd lift].
  rewrite get_cell_ids_h3_no_time. cbn [app].
  destruct (get_cell_ids_h3 _ _ angle).2 as [cells | e]; [| reflexivity].
  rewrite add_cells_value. reflexivity.
Qed.

Lemma sats_loop_no_time (items : list (string * Subpoint)) (start : gset string) :
  List.filter is_time_print (sats_loop items start).1 = [].
Proof.
  revert start. induction items as [| [sat_name sat] rest IH]; intros start;
    [reflexivity |].
  cbn [sats_loop]. rewrite M_bind_fst, List.filter_app, sat_cells_no_time.
  destruct (sat_cells sat start).2; [apply IH | reflexivity].
Qed.

(** One iteration prints its progress line when [i % 30 == 0]. *)
Lemma step_time_prints (START_TIME : Z) (i : nat) (coverage : gmap string Z) :
  List.filter is_time_print (step START_TIME i coverage).1
  = if (i mod 30 =? 0)%nat then [PrintTime (START_TIME + Z.of_nat i)] else [].
Proof.
  unfold step. cbv zeta. rewrite M_bind_fst, List.filter_app.
  assert (Hrest : List.filter is_time_print
                    (step_cells (START_TIME + Z.of_nat i)
                       ≫= λ coverage_set, mret (accumulate coverage coverage_set)).1
                  = []).
  { rewrite M_bind_fst, List.filter_app. unfold step_cells. cbv zeta.
    rewrite sats_loop_no_time. destruct (sats_loop _ _).2; reflexivity. }
  destruct (i mod 30 =? 0)%nat; cbn [print mret M_mret fst snd List.filter is_time_print];
    rewrite Hrest; reflexivity.
Qed.

Lemma steps_loop_time_prints (START_TIME : Z) (indices : list nat)
    (coverage result : gmap string Z) :
  (steps_loop START_TIME indices coverage).2 = Ok result →
  List.filter is_time_print (steps_loop START_TIME indices coverage).1
  = map (λ i, PrintTime (START_TIME + Z.of_nat i))
        (List.filter (λ i, (i mod 30 =? 0)%nat) indices).
Proof.
  revert coverage. induction indices as [| i rest IH]; intros coverage Hrun;
    [reflexivity |].
  cbn [steps_loop] in *. rewrite M_bind_snd in Hrun.
  rewrite M_bind_fst, List.filter_app, step_time_prints.
  destruct (step START_TIME i coverage).2 as [coverage' | e]; [| discriminate Hrun].
  rewrite (IH _ Hrun). cbn [List.filter].
  destruct (i mod 30 =? 0)%nat; reflexivity.
Qed.

(** X21: a run that completes prints one progress line for every index [i]
    of the loop with [i % 30 == 0], in order, naming the minute
    [START_TIME + i]; for a partition these are the twelve minutes
    [process * 360 + 30 * k]. *)
Theorem progress_lines (process : Z) :
  (∀ (N : nat) (coverage : gmap string Z),
     (simulate N process).2 = Ok coverage →
     List.filter is_time_print (simulate N process).1
     = map (λ i, PrintTime (process * Z.of_nat N + Z.of_nat i))
           (List.filter (λ i, (i mod 30 =? 0)%nat) (seq 0 N))) ∧
  (∀ coverage : gmap string Z,
     (main process).2 = Ok coverage →
     List.filter is_time_print (main process).1
     = map (λ k, PrintTime (process * 360 + 30 * Z.of_nat k)) (seq 0 12)).
Proof.
  assert (Hgen : ∀ (N : nat) (coverage : gmap string Z),
            (simulate N process).2 = Ok coverage →
            List.filter is_time_print (simulate N process).1
            = map (λ i, PrintTime (process * Z.of_nat N + Z.of_nat i))
                  (List.filter (λ i, (i mod 30 =? 0)%nat) (seq 0 N))).
  { intros N coverage Hrun. unfold simulate in *. cbv zeta in *.
    apply (steps_loop_time_prints _ _ _ _ Hrun). }
  split; [exact Hgen |].
  intros coverage Hrun. unfold main in *. rewrite (Hgen _ _ Hrun).
  replace (List.filter (λ i, (i mod 30 =? 0)%nat) (seq 0 TIME_PER_PROCESS))
    with (map (λ k, (30 * k)%nat) (seq 0 12)) by (vm_compute; reflexivity).
  rewrite map_map. apply map_ext. intros k.
  rewrite TIME_PER_PROCESS_360. f_equal. lia.
Qed.

(** X22: with a vertex beyond 180, and a polygon constructor that returns
    or raises [ValueError], the rasterizer returns what was filled before
    the first failure: nothing when the split or the first fill raises,
    whatever the second ring would give; the cells of the first ring when
    the second fill raises; the union of both otherwise. *)
Theorem split_path_returns_filled_so_far (lat lng angle : float) :
  needs_split (footprint_ring lat lng angle) = true →
  (∀ e, shapely_Polygon (footprint_ring lat lng angle) = Raise e → e = ValueError) →
  ∃ cells : gset string,
    (get_cell_ids_h3 lat lng angle).2 = Ok cells ∧
    match split_antimeridian_polygon (footprint_ring lat lng angle) with
    | Raise _ => cells = ∅
    | Ok (first, second) =>
        match h3_polyfill first, h3_polyfill second with
        | Ok filled1, Ok filled2 => cells = filled1 ∪ filled2
        | Ok filled1, Raise _ => cells = filled1
        | Raise _, _ => cells = ∅
        end
    end.
Proof.
  unfold get_cell_ids_h3. cbv zeta.
  generalize (footprint_ring lat lng angle). intros polygon Hsplit Hpoly.
  rewrite Hsplit.
  assert (Hmap : ∃ out mapping,
            match shapely_Polygon polygon with
            | Ok m => mret (Some m)
            | Raise ValueError =>
                _ ← print (PrintLatLng lat lng);
                _ ← print (PrintPolygon polygon);
                mret None
            | Raise e => raise e
            end = ((out, Ok mapping) : M (option ring))).
  { destruct (shapely_Polygon polygon) as [m | e]; [eexists _, _; reflexivity |].
    rewrite (Hpoly e eq_refl). eexists _, _; reflexivity. }
  destruct Hmap as (out & mapping & ->).
  destruct (split_antimeridian_polygon polygon) as [[first second] | e];
    [| exists ∅; split; reflexivity].
  destruct (h3_polyfill first) as [filled1 | e1]; [| exists ∅; split; reflexivity].
  destruct (h3_polyfill second) as [filled2 | e2].
  - exists (filled1 ∪ filled2). split; [| reflexivity].
    cbn. repeat f_equal. set_solver.
  - exists filled1. split; [| reflexivity].
    cbn. repeat f_equal. set_solver.
Qed.

End OutputFacts.

Lemma progress_lines_witness :
  (@Coverage.simulate Demo.demo_libs Demo.demo_world 3 0).2
  = Ok ({[ "east" := 3%Z; "west" := 3%Z ]} : gmap string Z) ∧
  List.filter Raster.is_time_print
    (@Coverage.simulate Demo.demo_libs Demo.demo_world 3 0).1
  = map (λ i, Raster.PrintTime (0 * Z.of_nat 3 + Z.of_nat i))
        (List.filter (λ i, (i mod 30 =? 0)%nat) (seq 0 3)).
Proof.
  assert (Hrun : (@Coverage.simulate Demo.demo_libs Demo.demo_world 3 0).2
                 = Ok ({[ "east" := 3%Z; "west" := 3%Z ]} : gmap string Z))
    by (vm_compute; reflexivity).
  split; [exact Hrun |].
  exact (proj1 (@progress_lines Demo.demo_libs Demo.demo_world 0) 3%nat _ Hrun).
Defined.

Lemma split_path_returns_filled_so_far_witness :
  Raster.needs_split (@Raster.footprint_ring Demo.demo_libs 0 179.5 0.1056) = true ∧
  ∃ cells : gset string,
    (@Raster.get_cell_ids_h3 Demo.demo_libs 0 179.5 0.1056).2 = Ok cells.
Proof.
  assert (Hsplit : Raster.needs_split
                     (@Raster.footprint_ring Demo.demo_libs 0 179.5 0.1056) = true)
    by (vm_compute; reflexivity).
  split; [exact Hsplit |].
  destruct (@split_path_returns_filled_so_far Demo.demo_libs 0 179.5 0.1056 Hsplit)
    as (cells & Hcells & _).
  - intros e He. vm_compute in He. discriminate He.
  - exists cells. exact Hcells.
Defined.

(* ===================================================================== *)
(** * The file a partition writes                                         *)
(* ===================================================================== *)

Section OutputFile.
Import Raster Coverage.

Lemma string_length_app (s t : string) :
  String.length (s +:+ t) = (String.length s + String.length t)%nat.
Proof.
  induction s as [| a s IH]; [reflexivity |].
  change (S (String.length (s +:+ t)) = S (String.length s + String.length t)).
  f_equal. exact IH.
Qed.

(** A common ending can be cancelled. *)
Lemma string_app_inv_tail (s1 s2 t : string) :
  s1 +:+ t = s2 +:+ t → s1 = s2.
Proof.
  revert s2. induction s1 as [| a s1 IH]; intros s2 Heq.
  - destruct s2 as [| b s2]; [reflexivity |].
    apply (f_equal String.length) in Heq.
    rewrite !string_length_app in Heq. cbn in Heq. lia.
  - destruct s2 as [| b s2].
    + apply (f_equal String.length) in Heq.
      rewrite !string_length_app in Heq. cbn in Heq. lia.
    + cbn in Heq. injection Heq as -> Heq. f_equal. apply IH, Heq.
Qed.

(** Two strings without a comma, each followed by a comma and a rest: the
    first comma tells where the first part ends. *)
Lemma split_at_first_comma (c c' r r' : string) :
  has_comma c = false → has_comma c' = false →
  c +:+ String ","%char r = c' +:+ String ","%char r' → c = c' ∧ r = r'.
Proof.
  revert c'. induction c as [| a c IH]; intros c' Hc Hc' Heq.
  - destruct c' as [| b c'].
    + injection Heq as ->. split; reflexivity.
    + injection Heq as <- _. discriminate Hc'.
  - destruct c' as [| b c'].
    + injection Heq as -> _. discriminate Hc.
    + injection Heq as -> Heq.
      change (has_comma (String b c))
        with (if Ascii.eqb b ","%char then true else has_comma c) in Hc.
      change (has_comma (String b c'))
        with (if Ascii.eqb b ","%char then true else has_comma c') in Hc'.
      destruct (Ascii.eqb b ","%char); [discriminate Hc |].
      destruct (IH c' Hc Hc' Heq) as [-> ->]. split; reflexivity.
Qed.

(** X23: different partition indices give different file names, so the
    partitions never write to the same file. *)
Theorem output_name_injective (p q : Z) :
  output_name p = output_name q → p = q.
Proof.
  unfold output_name. intros Heq.
  do 3 apply (inj (String.app _)) in Heq.
  apply string_app_inv_tail in Heq.
  exact (inj pretty _ _ Heq).
Qed.

(** A line determines its cell and its count, as long as cell identifiers
    hold no comma. *)
Lemma output_line_injective (cell cell' : string) (cov cov' : Z) :
  has_comma cell = false → has_comma cell' = false →
  output_line cell cov = output_line cell' cov' →
  cell = cell' ∧ cov = cov'.
Proof.
  unfold output_line. intros Hc Hc' Heq.
  destruct (split_at_first_comma cell cell'
              (pretty cov +:+ String "010"%char "")
              (pretty cov' +:+ String "010"%char "") Hc Hc' Heq) as [-> Hrest].
  split; [reflexivity |].
  apply string_app_inv_tail in Hrest.
  exact (inj pretty _ _ Hrest).
Qed.

(** X24: the file has one line per item of the histogram, and as long as
    the cell identifiers hold no comma a line determines its item: two
    items with the same line are the same cell with the same count. *)
Theorem output_lines_determine_items (items : list (string * Z)) :
  Forall (λ item : string * Z, has_comma item.1 = false) items →
  length (output_lines items) = length items ∧
  (∀ item item' : string * Z,
     In item items → In item' items →
     output_line item.1 item.2 = output_line item'.1 item'.2 → item = item').
Proof.
  intros Hclean. split; [unfold output_lines; apply length_map |].
  intros [cell cov] [cell' cov'] Hin Hin' Hline.
  rewrite Forall_forall in Hclean.
  pose proof (Hclean _ (proj2 (list_elem_of_In _ _) Hin)) as Hc.
  pose proof (Hclean _ (proj2 (list_elem_of_In _ _) Hin')) as Hc'.
  cbn [fst snd] in Hc, Hc', Hline.
  destruct (output_line_injective _ _ _ _ Hc Hc' Hline) as [-> ->].
  reflexivity.
Qed.

End OutputFile.

Lemma output_name_injective_witness :
  Coverage.output_name 2 = "h3_4_cov_2.txt" ∧ (2 = 2)%Z.
Proof.
  split; [vm_compute; reflexivity |].
  exact (output_name_injective 2 2 eq_refl).
Defined.

Lemma output_lines_determine_items_witness :
  Forall (λ item : string * Z, Coverage.has_comma item.1 = false)
         [("8429a1bffffffff", 17%Z); ("8429a19ffffffff", 3%Z)] ∧
  length (Coverage.output_lines
            [("8429a1bffffffff", 17%Z); ("8429a19ffffffff", 3%Z)]) = 2%nat.
Proof.
  assert (Hclean : Forall (λ item : string * Z, Coverage.has_comma item.1 = false)
                          [("8429a1bffffffff", 17%Z); ("8429a19ffffffff", 3%Z)])
    by (repeat constructor).
  split; [exact Hclean |].
  exact (proj1 (output_lines_determine_items _ Hclean)).
Defined.
